(** * stubby: kernel command line merge and validation (kcmdline.c)

    A shallow embedding of [is_allowed], [check_cmdline], [get_cmdline] and
    [get_cmdline_with_print], and the properties of the merge that the
    specification states.

    Representation.
    - [CHAR8] is an 8-bit byte ([ascii]).
    - A [CHAR8 *] is the list of the bytes stored from the pointed address
      on.  The end of the list stands for the terminating NUL: reading past
      it yields NUL ([rd]).  A NUL inside the list ends the C string early,
      as it does in memory, so the string functions work on [cstr].
    - A pointer into a buffer is an offset ([nat]); [&buf[k]] is [drop k buf].
    - [UINTN] lengths are [nat]: they are lengths of lists, far below the
      64-bit wrap.  [int] values that are converted from [UINTN] go through
      [int_of], which writes the 32-bit wrap-around out.
    - [AllocatePool] may fail; the outcome of every request is read from an
      oracle that is threaded through the calls ([M]).
    - [UnicodeSPrint] output is a [Diagnostic]: the format and its
      arguments.  The size limit of the message buffer is not modelled.
    - Buffers are values: the bytes that the source writes.  The block of
      [part1], which the source writes by index, is also followed byte by
      byte ([part1_block]).  The message buffer is read once before it is
      written; what it holds then is an input of the run ([junk]). *)

From Stdlib Require Import ZArith Lia Ascii String.
From stdpp Require Import base tactics option list.

Local Open Scope nat_scope.

(** ** Bytes and C strings *)

Definition CHAR8 := ascii.

Definition NUL : CHAR8 := Ascii.zero.
Definition SPACE : CHAR8 := Ascii.Space.

(** String literals of the source. *)
Definition str (s : string) : list CHAR8 := list_ascii_of_string s.

Definition code (c : CHAR8) : nat := nat_of_ascii c.

(** [p[i]] *)
Definition rd (p : list CHAR8) (i : nat) : CHAR8 := default NUL (p !! i).

Definition is_nul (c : CHAR8) : bool := Ascii.eqb c NUL.

(** The C string at [p]: the bytes before the first NUL. *)
Fixpoint cstr (p : list CHAR8) : list CHAR8 :=
  match p with
  | [] => []
  | c :: p' => if is_nul c then [] else c :: cstr p'
  end.

(** 32-bit two's complement value of a [UINTN] converted to [int]. *)
Definition int_of (n : nat) : Z :=
  let r := (Z.of_nat n mod 2 ^ 32)%Z in
  if (r <? 2 ^ 31)%Z then r else (r - 2 ^ 32)%Z.

(** An [int] passed where a [UINTN] is expected. *)
Definition uintn_of (z : Z) : nat := Z.to_nat (z mod 2 ^ 64).

(** ** External collaborators *)

(** Modelled from the spec: [strlena] of the firmware library is not part of
    kcmdline.c; it is the length of a C string (the byte-compare/search
    primitive of the external interfaces). *)
Definition strlena (s : list CHAR8) : nat := length (cstr s).

(** Modelled from the spec: [strncmpa] of the firmware library is not part of
    kcmdline.c.  It walks both strings while the first one has not ended,
    at most [len] bytes, and stops at the first difference; the result is 0
    when [len] bytes were equal, the difference of the two current bytes
    otherwise. *)
Fixpoint strncmpa (s1 s2 : list CHAR8) (len : nat) : Z :=
  match len with
  | 0 => 0%Z
  | S len' =>
      let c1 := rd s1 0 in
      let c2 := rd s2 0 in
      if is_nul c1 || negb (Ascii.eqb c1 c2)
      then (Z.of_nat (code c1) - Z.of_nat (code c2))%Z
      else strncmpa (tail s1) (tail s2) len'
  end.

(** [t] is found at the head of [s]. *)
Fixpoint starts_with (t s : list CHAR8) : bool :=
  match t, s with
  | [], _ => true
  | _ :: _, [] => false
  | a :: t', b :: s' => Ascii.eqb a b && starts_with t' s'
  end.

Fixpoint find_sub (t s : list CHAR8) : option nat :=
  if starts_with t s then Some 0
  else match s with
       | [] => None
       | _ :: s' => S <$> find_sub t s'
       end.

(** Modelled from the spec: [strstra] is declared in stra.h and defined
    outside kcmdline.c; it is the substring search of the external
    interfaces: the offset of the first occurrence of the C string [t] in
    the C string [s], [None] for the NULL result. *)
Definition strstra (s t : list CHAR8) : option nat := find_sub (cstr t) (cstr s).

(** Modelled from the spec: the status codes of stubby_efi.h, with the
    values of the UEFI specification (error codes have the top bit set). *)
Inductive EFI_STATUS :=
| EFI_SUCCESS
| EFI_INVALID_PARAMETER
| EFI_OUT_OF_RESOURCES
| EFI_SECURITY_VIOLATION.

Definition status_value (s : EFI_STATUS) : Z :=
  match s with
  | EFI_SUCCESS => 0
  | EFI_INVALID_PARAMETER => Z.lor (2 ^ 63) 2
  | EFI_OUT_OF_RESOURCES => Z.lor (2 ^ 63) 9
  | EFI_SECURITY_VIOLATION => Z.lor (2 ^ 63) 26
  end.

(** Modelled from the spec: the [EFI_ERROR] macro tests the top bit. *)
Definition EFI_ERROR (s : EFI_STATUS) : bool := Z.testbit (status_value s) 63.

Definition status_eqb (a b : EFI_STATUS) : bool := (status_value a =? status_value b)%Z.

(** *** The pool allocator *)

(** The oracle: [answers p k] tells whether the request number [k] from
    now on is served.  [AllocatePool] does not clear the block it returns;
    the source reads one block before it has written it, the message buffer
    (line 242, after the jumps of lines 142-150): [junk p] tells whether
    that block starts, as the pool returns it, with a character other
    than 0. *)
Record Pool := { answers :> nat -> bool; junk : bool }.

(** The pool after one request. *)
Definition next (p : Pool) : Pool :=
  {| answers := fun k => p (S k); junk := junk p |}.

Definition M (A : Type) : Type := Pool -> A * Pool.

Definition ret {A} (a : A) : M A := fun p => (a, p).

Definition bind {A B} (m : M A) (k : A -> M B) : M B :=
  fun p => let (a, p') := m p in k a p'.

Notation "x <- m ;; k" := (bind m (fun x => k))
  (at level 100, m at next level, right associativity).

(** Modelled from the spec: [AllocatePool] is the pool allocator of the
    firmware; the result says whether the pointer is not NULL. *)
Definition AllocatePool (size : nat) : M bool :=
  fun p => (p 0, next p).

(** [errbuf[0] != 0] read from the message buffer that was never written. *)
Definition unwritten : M bool := fun p => (junk p, p).

Definition run {A} (m : M A) (p : Pool) : A := fst (m p).

(** Every request is served. *)
Definition plenty (p : Pool) : Prop := forall k, p k = true.

Definition unlimited : Pool := {| answers := fun _ => true; junk := false |}.

(** The pool that remains after some requests still serves every request. *)
Ltac served :=
  match goal with
  | H : plenty _ |- plenty _ => let k := fresh "k" in intros k; apply H
  end.

(** ** The allow list *)

Definition MAX_TOKENS : nat := 128.

(** One row of [CHAR8 allowed[][32]]: the literal, NUL padded to 32 bytes. *)
Definition row (s : string) : list CHAR8 :=
  str s ++ replicate (32 - length (str s)) NUL.

Definition allowed : list (list CHAR8) :=
  [ row "^console=";
    row "^root=soci:";
    row "root=atomix";
    row "ro";
    row "quiet";
    row "verbose";
    row "crashkernel=256M" ].

Definition CARET : CHAR8 := "^"%char.

(** The body of the [for] loop of [is_allowed], over the rows still to try. *)
Fixpoint is_allowed_loop (rows : list (list CHAR8)) (input : list CHAR8)
    (input_len : Z) : bool :=
  match rows with
  | [] => false
  | token :: rows' =>
      let len := int_of (strlena token) in
      let '(token, len, skip) :=
        if Ascii.eqb (rd token 0) CARET
        then (drop 1 token, (len - 1)%Z, false)
        else (token, len, negb (input_len =? len)%Z) in
      if skip then is_allowed_loop rows' input input_len
      else if (strncmpa token input (uintn_of len) =? 0)%Z then true
      else is_allowed_loop rows' input input_len
  end.

Definition is_allowed (input : list CHAR8) : bool :=
  is_allowed_loop allowed input (int_of (strlena input)).

(** ** Diagnostics *)

(** What [UnicodeSPrint] writes into the message buffer: one constructor per
    format string of kcmdline.c, with the arguments of the format.  A [%a]
    argument is the C string at the pointer.  [Unwritten] is the content of
    a message buffer that no call has written: what the pool left there. *)
Inductive Diagnostic :=
| BadCharacter (c : CHAR8) (position : nat) (cmdline : list CHAR8)
| TooManyTokens
| TokenNotAllowed (token : list CHAR8)
| RuntimeWithoutMarker
| MarkerMoreThanOnce (marker : list CHAR8)
| MarkerNotFullToken (marker : list CHAR8)
| NamespaceInBuiltin (namespace : list CHAR8)
| NamespaceInRuntime (namespace : list CHAR8)
| Unwritten.

(** ** check_cmdline *)

(** The locals of [check_cmdline] that the first loop updates.  [tokens]
    holds offsets into [buf]. *)
Record Walk := {
  buf : list CHAR8;
  start : Z;
  num_toks : nat;
  tokens : list nat
}.

(** [tokens[num_toks] = &buf[start]; num_toks++] *)
Definition push_token (w : Walk) : Walk :=
  {| buf := buf w;
     start := start w;
     num_toks := S (num_toks w);
     tokens := <[num_toks w := Z.to_nat (start w)]> (tokens w) |}.

Definition set_start (z : Z) (w : Walk) : Walk :=
  {| buf := buf w; start := z; num_toks := num_toks w; tokens := tokens w |}.

Definition set_buf (i : nat) (c : CHAR8) (w : Walk) : Walk :=
  {| buf := <[i := c]> (buf w); start := start w;
     num_toks := num_toks w; tokens := tokens w |}.

(** The loop "walk buf, populating tokens": [n] iterations from index [i]. *)
Fixpoint walk (n i : nat) (cmdline : list CHAR8) (w : Walk) : Diagnostic + Walk :=
  match n with
  | 0 => inr w
  | S n' =>
      let c := rd (buf w) i in
      if (code c <? 32) || (126 <? code c) then
        inl (BadCharacter c i (cstr cmdline))
      else if MAX_TOKENS <=? i then
        inl TooManyTokens
      else
        walk n' (S i) cmdline
          (if Ascii.eqb c SPACE then
             let w := set_buf i NUL w in
             if (0 <=? start w)%Z then set_start (-1) (push_token w) else w
           else
             if (start w <? 0)%Z then set_start (Z.of_nat i) w else w)
  end.

(** The loop over the tokens found: [n] iterations from index [i]. *)
Fixpoint scan (n i : nat) (w : Walk) (r : EFI_STATUS * option Diagnostic)
    : EFI_STATUS * option Diagnostic :=
  match n with
  | 0 => r
  | S n' =>
      let token := drop (default 0 (tokens w !! i)) (buf w) in
      scan n' (S i) w
        (if negb (is_allowed token)
         then (EFI_SECURITY_VIOLATION, Some (TokenNotAllowed (cstr token)))
         else r)
  end.

(** The tokenizer of [check_cmdline]: the copy of the line into [buf], the
    first loop and the closing of the last token.  [inl] is an exit with
    [EFI_SECURITY_VIOLATION] and its message. *)
Definition tokenizer (cmdline : list CHAR8) : Diagnostic + Walk :=
  let cmdline_len := length cmdline in
  let w0 := {| buf := take cmdline_len cmdline ++ [NUL];
               start := (-1)%Z;
               num_toks := 0;
               tokens := replicate MAX_TOKENS 0 |} in
  match walk cmdline_len 0 cmdline w0 with
  | inl d => inl d
  | inr w => inr (if (0 <=? start w)%Z then push_token w else w)
  end.

(** [check_cmdline] from [*errmsg = 0] to the label [out]: the status and
    the content of the message buffer ([None] is the empty message). *)
Definition check_body (cmdline : list CHAR8) : EFI_STATUS * option Diagnostic :=
  match tokenizer cmdline with
  | inl d => (EFI_SECURITY_VIOLATION, Some d)
  | inr w => scan (num_toks w) 0 w (EFI_SUCCESS, None)
  end.

(** [check_cmdline cmdline errmsg], [errmsg] being the content of the
    message buffer on entry: it is left as it is when the allocation
    fails. *)
Definition check_cmdline (cmdline : list CHAR8) (errmsg : option Diagnostic)
    : M (EFI_STATUS * option Diagnostic) :=
  buf_ok <- AllocatePool (length cmdline + 1) ;;
  if negb buf_ok then ret (EFI_OUT_OF_RESOURCES, errmsg)
  else ret (check_body cmdline).

(** ** get_cmdline *)

Definition marker : list CHAR8 := str "STUBBY_RT_CLI1".
Definition namespace : list CHAR8 := str "STUBBY_RT".
Definition errbuf_buflen : nat := 255.

Definition not_null {A} (p : option A) : bool :=
  match p with Some _ => true | None => false end.

(** The outputs of [get_cmdline]: the returned status, [*cmdline] ([None]
    is NULL), [*cmdline_len] and [*errmsg] ([None] is NULL). *)
Record Merge := {
  status : EFI_STATUS;
  cmdline : option (list CHAR8);
  cmdline_len : nat;
  errmsg : option Diagnostic
}.

(** The block [if (builtin_len != 0) { ... }] of [get_cmdline]: either the
    message of the [EFI_INVALID_PARAMETER] exit, or [part1], [part1_len],
    [part2], [part2_len].  The parts are values: the bytes that the source
    writes.  Where it writes them in the block of [part1], and whether that
    is inside the block, is followed by [part1_block] below. *)
Definition splice (secure : bool) (builtin runtime : list CHAR8)
    : Diagnostic + (list CHAR8 * nat * list CHAR8 * nat) :=
  let builtin_len := length builtin in
  let runtime_len := length runtime in
  let marker_len := strlena marker in
  if builtin_len =? 0 then inr ([], 0, [], 0)
  else
    match strstra builtin marker with
    | None =>
        if secure then
          if negb (runtime_len =? 0) then inl RuntimeWithoutMarker
          else inr ([], 0, [], 0)
        else
          let part1_len := builtin_len + 1 in
          inr (take builtin_len builtin ++ [SPACE], part1_len, [], 0)
    | Some p =>
        if not_null (strstra (drop (p + marker_len) builtin) marker) then
          inl (MarkerMoreThanOnce (cstr marker))
        else
          let part1_len := p in
          let part2_len := builtin_len - marker_len - part1_len in
          if negb (((p =? 0) || Ascii.eqb (rd builtin (p - 1)) SPACE)
                   && ((part2_len =? 0)
                       || Ascii.eqb (rd builtin (p + marker_len)) SPACE))
          then inl (MarkerNotFullToken (cstr marker))
          else inr (take part1_len builtin, part1_len,
                    take part2_len (drop (p + marker_len) builtin), part2_len)
    end.

(** *** The block of part1 *)

(** A block of the pool, byte by byte; [None] is a byte never written. *)
Abbreviation Block := (list (option CHAR8)) (only parsing).

(** The block that [AllocatePool (size)] returns when it is served. *)
Definition new_block (size : nat) : Block := replicate size None.

(** [*(blk + i) = c]; [None] when the index is outside the block. *)
Definition store (blk : Block) (i : nat) (c : CHAR8) : option Block :=
  if i <? length blk then Some (<[i := Some c]> blk) else None.

(** [CopyMem (blk + i, src, n)] *)
Fixpoint copy_mem (blk : Block) (i : nat) (src : list CHAR8) (n : nat)
    : option Block :=
  match n with
  | 0 => Some blk
  | S n' =>
      match store blk i (rd src 0) with
      | None => None
      | Some blk' => copy_mem blk' (S i) (tail src) n'
      end
  end.

(** The block of [part1] when [get_cmdline] leaves the splicer: allocated
    with [builtin_len + 1] bytes (line 141), written at line 153 and, along
    the branches of [splice], at lines 172-175 or 195-196, each store at
    the index that the source gives it.  [None]: a store outside the
    block. *)
Definition part1_block (secure : bool) (builtin runtime : list CHAR8)
    : option Block :=
  let builtin_len := length builtin in
  let runtime_len := length runtime in
  let marker_len := strlena marker in
  match store (new_block (builtin_len + 1)) 0 NUL with
  | None => None
  | Some blk =>
      if builtin_len =? 0 then Some blk
      else
        match strstra builtin marker with
        | None =>
            if secure then Some blk
            else
              match copy_mem blk 0 builtin builtin_len with
              | None => None
              | Some blk =>
                  let part1_len := builtin_len + 1 in
                  match store blk (part1_len - 1) SPACE with
                  | None => None
                  | Some blk => store blk part1_len NUL
                  end
              end
        | Some p =>
            if not_null (strstra (drop (p + marker_len) builtin) marker) then
              Some blk
            else
              let part1_len := p in
              let part2_len := builtin_len - marker_len - part1_len in
              if negb (((p =? 0) || Ascii.eqb (rd builtin (p - 1)) SPACE)
                       && ((part2_len =? 0)
                           || Ascii.eqb (rd builtin (p + marker_len)) SPACE))
              then Some blk
              else
                match copy_mem blk 0 builtin part1_len with
                | None => None
                | Some blk => store blk part1_len NUL
                end
        end
  end.

Definition failed (st : EFI_STATUS) (errbuf : option Diagnostic) : Merge :=
  {| status := st; cmdline := None; cmdline_len := 0; errmsg := errbuf |}.

(** The label [out] reached before [*errbuf = 0] of line 155: the test of
    [errbuf[0]] at line 242 reads what the pool left in the block, and
    [*errmsg] is NULL or that block. *)
Definition out_unwritten (st : EFI_STATUS) : M Merge :=
  dirty <- unwritten ;;
  ret (failed st (if dirty then Some Unwritten else None)).

(** [get_cmdline], with the parts that [splice] returns.  In the branch of
    lines 172-175 the source stores one byte outside the block of [part1]
    ([part1_block]); there the function gives what the source computes when
    that store does no harm. *)
Definition get_cmdline (secure : bool) (builtin runtime : list CHAR8) : M Merge :=
  let builtin_len := length builtin in
  let runtime_len := length runtime in
  errbuf_ok <- AllocatePool (errbuf_buflen * 2) ;;
  if negb errbuf_ok then ret (failed EFI_OUT_OF_RESOURCES None) else
  part1_ok <- AllocatePool (builtin_len + 1) ;;
  if negb part1_ok then out_unwritten EFI_OUT_OF_RESOURCES else
  part2_ok <- AllocatePool (builtin_len + 1) ;;
  if negb part2_ok then out_unwritten EFI_OUT_OF_RESOURCES else
  match splice secure builtin runtime with
  | inl d => ret (failed EFI_INVALID_PARAMETER (Some d))
  | inr (part1, part1_len, part2, part2_len) =>
      if not_null (strstra part1 namespace) || not_null (strstra part2 namespace)
      then ret (failed EFI_INVALID_PARAMETER (Some (NamespaceInBuiltin (cstr namespace))))
      else if not_null (strstra runtime namespace)
      then ret (failed EFI_INVALID_PARAMETER (Some (NamespaceInRuntime (cstr namespace))))
      else
        r <- check_cmdline runtime None ;;
        let '(st, errbuf) := r in
        if EFI_ERROR st && (negb (status_eqb st EFI_SECURITY_VIOLATION) || secure)
        then ret (failed st errbuf)
        else
          let clen := part1_len + runtime_len + part2_len in
          cbuf_ok <- AllocatePool (clen + 1) ;;
          if negb cbuf_ok then ret (failed EFI_OUT_OF_RESOURCES errbuf)
          else
            ret {| status := st;
                   cmdline := Some (take part1_len part1
                                    ++ take runtime_len runtime
                                    ++ take part2_len part2);
                   cmdline_len := clen;
                   errmsg := errbuf |}
  end.



(** ** get_cmdline_with_print *)

(** One call of [Print]. *)
Inductive Printed :=
| PrintStatus (err : EFI_STATUS)
| PrintStatusMsg (err : EFI_STATUS) (msg : Diagnostic)
| PrintRejected
| PrintWouldBeRejected.

(** The returned status, the two outputs, and what was printed in order. *)
Record Reported := {
  err : EFI_STATUS;
  out_cmdline : option (list CHAR8);
  out_cmdline_len : nat;
  console : list Printed
}.

Definition get_cmdline_with_print (secure : bool) (builtin runtime : list CHAR8)
    : M Reported :=
  m <- get_cmdline secure builtin runtime ;;
  let report e log :=
    {| err := e; out_cmdline := cmdline m;
       out_cmdline_len := cmdline_len m; console := log |} in
  let e := status m in
  if negb (EFI_ERROR e) then ret (report e [])
  else
    let log :=
      match errmsg m with
      | None => [PrintStatus e]
      | Some msg => [PrintStatusMsg e msg]
      end in
    if status_eqb e EFI_SECURITY_VIOLATION then
      if secure then ret (report e (log ++ [PrintRejected]))
      else ret (report EFI_SUCCESS (log ++ [PrintWouldBeRejected]))
    else ret (report e log).

(** ** Reference notions of the specification *)

(** Whitespace-delimited tokens of a line: maximal runs of bytes other than
    the space. [cur] is the run being read, last byte first. *)
Fixpoint split_tokens (cur : list CHAR8) (l : list CHAR8) : list (list CHAR8) :=
  match l with
  | [] => match cur with [] => [] | _ => [rev cur] end
  | c :: l' =>
      if Ascii.eqb c SPACE
      then match cur with [] => [] | _ => [rev cur] end ++ split_tokens [] l'
      else split_tokens (c :: cur) l'
  end.

Definition tokenize (l : list CHAR8) : list (list CHAR8) := split_tokens [] l.

(** Printable ASCII, 0x20 to 0x7e. *)
Definition printable (c : CHAR8) : bool := (32 <=? code c) && (code c <=? 126).

(** The marker, between [pre] and [post], is a whole token: [pre] is empty
    or ends with a space, [post] is empty or starts with one. *)
Definition standalone (pre post : list CHAR8) : Prop :=
  (pre = [] \/ exists pre', pre = pre' ++ [SPACE])
  /\ (post = [] \/ exists post', post = SPACE :: post').

(** [t] occurs in [s]. *)
Definition occurs (t s : list CHAR8) : Prop := exists a b, s = a ++ t ++ b.

(** [t] occurs in [pre ++ t ++ post] at that place only. *)
Definition only_at (t pre post : list CHAR8) : Prop :=
  forall a b, pre ++ t ++ post = a ++ t ++ b -> a = pre.

(** A line as the callers pass it: its length is the one [strlen] returns,
    so no byte of it is NUL. *)
Definition c_line (l : list CHAR8) : Prop := Forall (fun c => c <> NUL) l.

(** The token loop of [check_cmdline] on the token strings themselves: the
    outcome after [toks], from the outcome [r] so far. *)
Fixpoint judge (toks : list (list CHAR8)) (r : EFI_STATUS * option Diagnostic)
    : EFI_STATUS * option Diagnostic :=
  match toks with
  | [] => r
  | t :: toks' =>
      judge toks'
        (if negb (is_allowed t)
         then (EFI_SECURITY_VIOLATION, Some (TokenNotAllowed t))
         else r)
  end.

(** The pattern of an allow list row: the row without its flag. *)
Definition pattern (token : list CHAR8) : list CHAR8 :=
  cstr (if Ascii.eqb (rd token 0) CARET then drop 1 token else token).

(** The words [toks] on one line, a single space between two of them. *)
Fixpoint join (toks : list (list CHAR8)) : list CHAR8 :=
  match toks with
  | [] => []
  | t :: toks' =>
      match toks' with
      | [] => t
      | _ => t ++ SPACE :: join toks'
      end
  end.

(** ** The invariant of the first loop of check_cmdline *)

(** In the part [seen] of the buffer that the loop has passed, the offset
    [s] points to the token [t], closed by a NUL. *)
Definition token_at (seen : list CHAR8) (s : nat) (t : list CHAR8) : Prop :=
  exists a b, seen = a ++ t ++ NUL :: b /\ length a = s /\ c_line t.

(** [seen] is the buffer up to the loop index, [rest] the bytes of the line
    still to read, [done] the tokens recorded, [cur] the bytes of the token
    being read, last byte first. *)
Record walk_inv (line seen : list CHAR8) (w : Walk)
    (done : list (list CHAR8)) (cur rest : list CHAR8) : Prop := {
  wi_buf : buf w = seen ++ rest ++ [NUL];
  wi_spec : tokenize line = done ++ split_tokens cur rest;
  wi_done : Forall2 (token_at seen) (take (num_toks w) (tokens w)) done;
  wi_size : length (tokens w) = MAX_TOKENS;
  wi_seen : length seen <= MAX_TOKENS;
  wi_room : 2 * num_toks w + length cur <= length seen;
  wi_cur : exists seen0, seen = seen0 ++ rev cur;
  wi_start : start w = match cur with
                       | [] => (-1)%Z
                       | _ => Z.of_nat (length seen - length cur)
                       end;
  wi_cur_line : c_line cur
}.

(** ** Evaluation on the examples of the specification *)

Example is_allowed_quiet : is_allowed (str "quiet") = true.
Proof. reflexivity. Qed.

Example is_allowed_console : is_allowed (str "console=ttyS0") = true.
Proof. reflexivity. Qed.

Example is_allowed_evil : is_allowed (str "evilparam") = false.
Proof. reflexivity. Qed.

Example tokenize_abc : tokenize (str "a b  c") = [str "a"; str "b"; str "c"].
Proof. reflexivity. Qed.

Example bad_character_is_cited :
  check_body (str "quiet" ++ ["001"%char] ++ str "ro")
  = (EFI_SECURITY_VIOLATION,
     Some (BadCharacter "001"%char 5 (str "quiet" ++ ["001"%char] ++ str "ro"))).
Proof. vm_compute. reflexivity. Qed.

Example marker_twice_is_refused :
  run (get_cmdline true (str "A STUBBY_RT_CLI1 B STUBBY_RT_CLI1 C") (str "x"))
    unlimited
  = failed EFI_INVALID_PARAMETER (Some (MarkerMoreThanOnce marker))
  /\ run (get_cmdline false (str "A STUBBY_RT_CLI1 B STUBBY_RT_CLI1 C") (str "x"))
       unlimited
     = failed EFI_INVALID_PARAMETER (Some (MarkerMoreThanOnce marker)).
Proof. split; vm_compute; reflexivity. Qed.

Example merge_secure_marker :
  run (get_cmdline true (str "root=atomix STUBBY_RT_CLI1 ro") (str "quiet")) unlimited
  = {| status := EFI_SUCCESS; cmdline := Some (str "root=atomix quiet ro");
       cmdline_len := 20; errmsg := None |}.
Proof. vm_compute. reflexivity. Qed.

(** ** C strings and substring search *)

Lemma is_nul_true c : is_nul c = true <-> c = NUL.
Proof. unfold is_nul. apply Ascii.eqb_eq. Qed.

Lemma is_nul_false c : is_nul c = false <-> c <> NUL.
Proof. unfold is_nul. apply Ascii.eqb_neq. Qed.

Lemma cstr_c_line l : c_line l -> cstr l = l.
Proof.
  induction 1 as [|c l Hc _ IH]; simpl; [done|].
  apply is_nul_false in Hc. by rewrite Hc, IH.
Qed.

Lemma cstr_app_nul l r : c_line l -> cstr (l ++ NUL :: r) = l.
Proof.
  induction 1 as [|c l Hc _ IH]; simpl; [done|].
  apply is_nul_false in Hc. by rewrite Hc, IH.
Qed.

Lemma cstr_end l : c_line l -> cstr (l ++ [NUL]) = l.
Proof. apply cstr_app_nul. Qed.

Lemma cstr_is_prefix l : exists r, l = cstr l ++ r.
Proof.
  induction l as [|c l [r IH]]; simpl; [by exists []|].
  destruct (is_nul c); [by eexists|].
  exists r. simpl. by f_equal.
Qed.

Lemma c_line_cstr l : c_line (cstr l).
Proof.
  induction l as [|c l IH]; simpl; [constructor|].
  destruct (is_nul c) eqn:E; constructor; [by apply is_nul_false|done].
Qed.

Lemma occurs_cstr t s : occurs t (cstr s) -> occurs t s.
Proof.
  intros (a & b & E). destruct (cstr_is_prefix s) as [r Hr].
  exists a, (b ++ r). rewrite Hr, E. by rewrite <- !app_assoc.
Qed.

Lemma starts_with_spec t s : starts_with t s = true <-> exists b, s = t ++ b.
Proof.
  revert s. induction t as [|a t IH]; intros s; simpl.
  - split; [by exists s|done].
  - destruct s as [|b s].
    + split; [done|]. by intros [? ?].
    + rewrite andb_true_iff, Ascii.eqb_eq, IH. split.
      * intros [-> [k ->]]. by exists k.
      * intros [k E]. injection E as -> ->. split; [done|by exists k].
Qed.

Lemma find_sub_Some t s i :
  find_sub t s = Some i ->
  exists a b, s = a ++ t ++ b /\ length a = i.
Proof.
  revert i. induction s as [|c s IH]; intros i; simpl.
  - destruct (starts_with t []) eqn:E; [|done].
    intros [= <-]. apply starts_with_spec in E as [b E]. by exists [], b.
  - destruct (starts_with t (c :: s)) eqn:E.
    + intros [= <-]. apply starts_with_spec in E as [b E]. by exists [], b.
    + destruct (find_sub t s) as [j|] eqn:F; [|done].
      intros [= <-]. destruct (IH j eq_refl) as (a & b & -> & <-).
      by exists (c :: a), b.
Qed.

Lemma find_sub_None t s : find_sub t s = None -> ~ occurs t s.
Proof.
  induction s as [|c s IH]; simpl.
  - destruct (starts_with t []) eqn:E; [done|]. intros _ (a & b & H).
    destruct a; [|done]. simpl in H.
    assert (starts_with t [] = true) by (apply starts_with_spec; eauto).
    congruence.
  - destruct (starts_with t (c :: s)) eqn:E; [done|].
    destruct (find_sub t s) eqn:F; [done|]. intros _ (a & b & H).
    destruct a as [|x a]; simpl in H.
    + assert (starts_with t (c :: s) = true) by (apply starts_with_spec; eauto).
      congruence.
    + injection H as -> ->. apply IH; [done|]. by exists a, b.
Qed.

Lemma find_sub_first t s i a b :
  find_sub t s = Some i -> s = a ++ t ++ b -> i <= length a.
Proof.
  revert i a. induction s as [|c s IH]; intros i a; simpl.
  - destruct (starts_with t []); [|done]. intros [= <-] _. lia.
  - destruct (starts_with t (c :: s)) eqn:E; [intros [= <-] _; lia|].
    destruct (find_sub t s) as [j|] eqn:F; [|done].
    intros [= <-] H. destruct a as [|x a]; simpl in H.
    + assert (starts_with t (c :: s) = true) by (apply starts_with_spec; eauto).
      congruence.
    + injection H as -> ->. simpl. apply le_n_S. by apply (IH j a).
Qed.

Lemma find_sub_occurs t s : occurs t s -> not_null (find_sub t s) = true.
Proof.
  intros H. destruct (find_sub t s) eqn:E; [reflexivity|].
  exfalso. by apply (find_sub_None _ _ E).
Qed.

(** The search of a line that has no NUL is the search of its bytes. *)
Lemma strstra_c_line s t : c_line s -> strstra s t = find_sub (cstr t) s.
Proof. intros H. unfold strstra. by rewrite (cstr_c_line s). Qed.

Lemma strstra_absent s t : ~ occurs (cstr t) s -> strstra s t = None.
Proof.
  intros H. unfold strstra. destruct (find_sub _ _) eqn:E; [|done].
  exfalso. apply H, occurs_cstr.
  apply find_sub_Some in E as (a & b & E & _). by exists a, b.
Qed.

(** A found pointer leaves room for the searched string before the end. *)
Lemma strstra_bound s t p :
  strstra s t = Some p -> p + strlena t <= length s.
Proof.
  unfold strstra, strlena. intros H.
  apply find_sub_Some in H as (a & b & E & <-).
  destruct (cstr_is_prefix s) as [r Hr].
  rewrite Hr, E. rewrite !length_app. lia.
Qed.

(** ** Runs in which the pool serves every request *)

Lemma plenty_unlimited : plenty unlimited.
Proof. by intros k. Qed.

Lemma run_alloc {A} size (k : bool -> M A) p :
  plenty p ->
  run (b <- AllocatePool size ;; k b) p = run (k true) (next p).
Proof. intros H. unfold run, bind, AllocatePool. by rewrite (H 0). Qed.

Lemma check_cmdline_served p cmdline e :
  plenty p -> run (check_cmdline cmdline e) p = check_body cmdline.
Proof. intros H. unfold check_cmdline. by rewrite run_alloc. Qed.

Lemma run_check {A} cmdline e (k : EFI_STATUS * option Diagnostic -> M A) p :
  plenty p ->
  run (r <- check_cmdline cmdline e ;; k r) p
  = run (k (check_body cmdline)) (next p).
Proof.
  intros H. unfold check_cmdline, run, bind, AllocatePool, ret.
  by rewrite (H 0).
Qed.

(** [get_cmdline] when no allocation fails: the allocator drops out. *)
Lemma get_cmdline_served p secure builtin runtime :
  plenty p ->
  run (get_cmdline secure builtin runtime) p =
  match splice secure builtin runtime with
  | inl d => failed EFI_INVALID_PARAMETER (Some d)
  | inr (part1, part1_len, part2, part2_len) =>
      if not_null (strstra part1 namespace) || not_null (strstra part2 namespace)
      then failed EFI_INVALID_PARAMETER (Some (NamespaceInBuiltin (cstr namespace)))
      else if not_null (strstra runtime namespace)
      then failed EFI_INVALID_PARAMETER (Some (NamespaceInRuntime (cstr namespace)))
      else
        let st := fst (check_body runtime) in
        let errbuf := snd (check_body runtime) in
        if EFI_ERROR st && (negb (status_eqb st EFI_SECURITY_VIOLATION) || secure)
        then failed st errbuf
        else {| status := st;
                cmdline := Some (take part1_len part1
                                 ++ take (length runtime) runtime
                                 ++ take part2_len part2);
                cmdline_len := part1_len + length runtime + part2_len;
                errmsg := errbuf |}
  end.
Proof.
  intros H. unfold get_cmdline.
  do 3 (rewrite run_alloc by served; cbn [negb]).
  destruct (splice secure builtin runtime) as [d|[[[part1 l1] part2] l2]];
    [done|].
  destruct (not_null (strstra part1 namespace) || not_null (strstra part2 namespace));
    [done|].
  destruct (not_null (strstra runtime namespace)); [done|].
  rewrite run_check by served.
  destruct (check_body runtime) as [st errbuf]. cbn [fst snd].
  destruct (EFI_ERROR st && (negb (status_eqb st EFI_SECURITY_VIOLATION) || secure));
    [done|].
  by rewrite run_alloc by served.
Qed.


(** ** The allow list matcher reads C strings *)

Lemma cstr_idem p : cstr (cstr p) = cstr p.
Proof. apply cstr_c_line, c_line_cstr. Qed.

Lemma strncmpa_cstr len : forall s1 p, strncmpa s1 (cstr p) len = strncmpa s1 p len.
Proof.
  induction len as [|len IH]; intros s1 p; simpl; [done|].
  destruct p as [|c p]; simpl; [done|].
  destruct (is_nul c) eqn:E.
  - apply is_nul_true in E as ->.
    change (rd [] 0) with NUL. change (rd (NUL :: p) 0) with NUL.
    unfold is_nul. by destruct (Ascii.eqb (rd s1 0) NUL).
  - change (rd (c :: cstr p) 0) with c. change (rd (c :: p) 0) with c.
    destruct (is_nul (rd s1 0) || negb (Ascii.eqb (rd s1 0) c)); [done|].
    apply IH.
Qed.

Lemma is_allowed_cstr p : is_allowed (cstr p) = is_allowed p.
Proof.
  unfold is_allowed, strlena. rewrite cstr_idem.
  generalize (int_of (length (cstr p))) as n.
  induction allowed as [|token rows IH]; intros n; simpl; [done|].
  destruct (Ascii.eqb (rd token 0) CARET).
  - by rewrite strncmpa_cstr, IH.
  - destruct (negb (n =? int_of (strlena token))%Z); [done|].
    by rewrite strncmpa_cstr, IH.
Qed.

(** ** The token loop *)

Lemma judge_app toks1 toks2 r : judge (toks1 ++ toks2) r = judge toks2 (judge toks1 r).
Proof. revert r. induction toks1 as [|t toks1 IH]; intros r; simpl; [done|apply IH]. Qed.

Lemma judge_allowed toks r :
  Forall (fun t => is_allowed t = true) toks -> judge toks r = r.
Proof.
  intros H. revert r. induction H as [|t toks Ht _ IH]; intros r; simpl; [done|].
  by rewrite Ht, IH.
Qed.

(** Last disallowed token wins. *)
Lemma judge_last before t after r :
  is_allowed t = false ->
  Forall (fun u => is_allowed u = true) after ->
  judge (before ++ t :: after) r = (EFI_SECURITY_VIOLATION, Some (TokenNotAllowed t)).
Proof.
  intros Ht Hafter. rewrite judge_app. simpl. rewrite Ht. simpl.
  by apply judge_allowed.
Qed.

(** Any list of tokens has no disallowed token or a last one. *)
Lemma last_disallowed toks :
  Forall (fun t => is_allowed t = true) toks
  \/ exists before t after,
       toks = before ++ t :: after /\ is_allowed t = false
       /\ Forall (fun u => is_allowed u = true) after.
Proof.
  induction toks as [|t toks IH]; [by left|].
  destruct IH as [IH|(before & u & after & -> & Hu & Hafter)].
  - destruct (is_allowed t) eqn:E.
    + left. by constructor.
    + right. by exists [], t, toks.
  - right. by exists (t :: before), u, after.
Qed.

Lemma scan_judge w ss toks :
  Forall2 (fun s t => cstr (drop s (buf w)) = t) ss toks ->
  forall i r,
    take (length ss) (drop i (tokens w)) = ss ->
    scan (length ss) i w r = judge toks r.
Proof.
  induction 1 as [|s t ss toks Hs _ IH]; intros i r Htake; simpl; [done|].
  simpl in Htake.
  destruct (drop i (tokens w)) as [|s' tl] eqn:Hdrop; [done|].
  injection Htake as -> Htl.
  assert (tokens w !! i = Some s) as ->.
  { rewrite <- (Nat.add_0_r i), <- lookup_drop. by rewrite Hdrop. }
  simpl. rewrite <- is_allowed_cstr, Hs. apply IH.
  replace (S i) with (i + 1) by lia. rewrite <- drop_drop, Hdrop. done.
Qed.

(** ** The first loop of check_cmdline *)

Lemma printable_code c :
  printable c = true -> (code c <? 32) || (126 <? code c) = false.
Proof.
  unfold printable. rewrite andb_true_iff, !Nat.leb_le. intros [? ?].
  apply orb_false_iff; split; apply Nat.ltb_ge; lia.
Qed.

Lemma unprintable_code c :
  printable c = false -> (code c <? 32) || (126 <? code c) = true.
Proof.
  unfold printable. rewrite andb_false_iff, !Nat.leb_gt. intros H.
  apply orb_true_iff. rewrite !Nat.ltb_lt. lia.
Qed.

Lemma printable_not_nul c : printable c = true -> c <> NUL.
Proof. by intros H ->. Qed.

Lemma rd_middle seen c rest : rd (seen ++ c :: rest) (length seen) = c.
Proof. unfold rd. by rewrite list_lookup_middle. Qed.

Lemma token_at_snoc seen x s t : token_at seen s t -> token_at (seen ++ x) s t.
Proof.
  intros (a & b & -> & Hs & Ht). exists a, (b ++ x).
  split; [|done]. by rewrite <- !app_assoc.
Qed.

Lemma take_push k x (l : list nat) :
  k < length l -> take (S k) (<[k := x]> l) = take k l ++ [x].
Proof.
  intros H. rewrite (take_S_r _ _ x) by (by apply list_lookup_insert_eq).
  by rewrite take_insert_ge.
Qed.

Lemma walk_step line seen w done cur c rest n :
  walk_inv line seen w done cur (c :: rest) ->
  printable c = true ->
  length seen < MAX_TOKENS ->
  exists w' x done' cur',
    walk (S n) (length seen) line w = walk n (length (seen ++ [x])) line w'
    /\ walk_inv line (seen ++ [x]) w' done' cur' rest.
Proof.
  intros [Hbuf Hspec Hdone Hsize _ Hroom [seen0 Hcur] Hstart Hline] Hc Hlen.
  assert (length (seen ++ [NUL]) <= MAX_TOKENS /\ length (seen ++ [c]) <= MAX_TOKENS)
    as [HlenN Hlenc] by (rewrite !length_app; simpl; lia).
  cbn [walk]. rewrite Hbuf. cbn [app]. rewrite rd_middle, (printable_code c Hc).
  destruct (Nat.leb_spec MAX_TOKENS (length seen)) as [?|_]; [lia|].
  destruct (Ascii.eqb_spec c SPACE) as [->|Hsp].
  - assert (Hb : <[length seen := NUL]> (buf w) = (seen ++ [NUL]) ++ rest ++ [NUL]).
    { rewrite Hbuf, insert_app_r_alt, Nat.sub_diag by lia.
      by rewrite <- app_assoc. }
    change (start (set_buf (length seen) NUL w)) with (start w).
    destruct cur as [|x cur0].
    + rewrite Hstart. cbn [Z.leb Z.compare].
      exists (set_buf (length seen) NUL w), NUL, done, [].
      split; [by rewrite length_app, Nat.add_1_r|].
      constructor; cbn [buf start num_toks tokens set_buf].
      * exact Hb.
      * exact Hspec.
      * eapply Forall2_impl; [exact Hdone|]. intros s t. apply token_at_snoc.
      * by rewrite Hsize.
      * done.
      * rewrite length_app. simpl in *. lia.
      * exists (seen ++ [NUL]). by rewrite app_nil_r.
      * done.
      * constructor.
    + rewrite Hstart.
      destruct (Z.leb_spec 0 (Z.of_nat (length seen - length (x :: cur0))));
        [|lia].
      exists (set_start (-1) (push_token (set_buf (length seen) NUL w))), NUL,
        (done ++ [rev (x :: cur0)]), [].
      split; [by rewrite length_app, Nat.add_1_r|].
      assert (num_toks w < length (tokens w)) as Hk.
      { rewrite Hsize. unfold MAX_TOKENS in *. simpl in Hroom. lia. }
      constructor; cbn [buf start num_toks tokens set_start push_token set_buf].
      * exact Hb.
      * rewrite Hspec, <- app_assoc. done.
      * rewrite take_push by done. apply Forall2_app.
        -- eapply Forall2_impl; [exact Hdone|]. intros s t. apply token_at_snoc.
        -- constructor; [|constructor].
           rewrite Hstart, Nat2Z.id. exists seen0, [].
           split; [by rewrite Hcur, <- app_assoc|].
           split; [|by apply Forall_rev].
           rewrite Hcur, length_app, length_rev. lia.
      * by rewrite length_insert.
      * done.
      * rewrite length_app. simpl in *. lia.
      * exists (seen ++ [NUL]). by rewrite app_nil_r.
      * done.
      * constructor.
  - assert (Hb : buf w = (seen ++ [c]) ++ rest ++ [NUL]).
    { by rewrite Hbuf, <- app_assoc. }
    assert (split_tokens cur (c :: rest) = split_tokens (c :: cur) rest) as Hs.
    { simpl. apply Ascii.eqb_neq in Hsp. by rewrite Hsp. }
    destruct cur as [|x cur0].
    + rewrite Hstart. cbn [Z.ltb Z.compare].
      exists (set_start (Z.of_nat (length seen)) w), c, done, [c].
      split; [by rewrite length_app, Nat.add_1_r|].
      constructor; cbn [buf start num_toks tokens set_start].
      * exact Hb.
      * by rewrite Hspec, Hs.
      * eapply Forall2_impl; [exact Hdone|]. intros s t. apply token_at_snoc.
      * done.
      * done.
      * rewrite length_app. simpl in *. lia.
      * by exists seen.
      * rewrite length_app. simpl. f_equal. lia.
      * constructor; [by apply printable_not_nul|constructor].
    + rewrite Hstart.
      destruct (Z.ltb_spec (Z.of_nat (length seen - length (x :: cur0))) 0);
        [lia|].
      exists w, c, done, (c :: x :: cur0).
      split; [by rewrite length_app, Nat.add_1_r|].
      constructor.
      * exact Hb.
      * by rewrite Hspec, Hs.
      * eapply Forall2_impl; [exact Hdone|]. intros s t. apply token_at_snoc.
      * done.
      * done.
      * rewrite length_app. simpl in *. lia.
      * exists seen0. rewrite Hcur. simpl. by rewrite <- !app_assoc.
      * rewrite Hstart, length_app. simpl. f_equal. lia.
      * constructor; [by apply printable_not_nul|done].
Qed.

Lemma walk_printable line : forall rest seen w done cur,
  walk_inv line seen w done cur rest ->
  Forall (fun c => printable c = true) rest ->
  length seen + length rest <= MAX_TOKENS ->
  exists w' seen' done' cur',
    walk (length rest) (length seen) line w = inr w'
    /\ walk_inv line seen' w' done' cur' [].
Proof.
  induction rest as [|c rest IH]; intros seen w done cur Hinv Hp Hlen.
  - by exists w, seen, done, cur.
  - apply Forall_cons in Hp as [Hc Hp]. cbn [length] in *.
    destruct (walk_step _ _ _ _ _ _ _ (length rest) Hinv Hc)
      as (w' & x & done' & cur' & -> & Hinv'); [lia|].
    apply (IH _ _ _ _ Hinv' Hp). rewrite length_app. simpl. lia.
Qed.

Lemma walk_too_many line : forall rest seen w done cur,
  walk_inv line seen w done cur rest ->
  MAX_TOKENS < length seen + length rest ->
  Forall (fun c => printable c = true) (take (S MAX_TOKENS - length seen) rest) ->
  walk (length rest) (length seen) line w = inl TooManyTokens.
Proof.
  induction rest as [|c rest IH]; intros seen w done cur Hinv Hlen Hp.
  - pose proof (wi_seen _ _ _ _ _ _ Hinv). simpl in Hlen. lia.
  - pose proof (wi_seen _ _ _ _ _ _ Hinv) as Hseen.
    replace (S MAX_TOKENS - length seen) with (S (MAX_TOKENS - length seen))
      in Hp by lia.
    cbn [take] in Hp. apply Forall_cons in Hp as [Hc Hp]. cbn [length] in *.
    destruct (decide (length seen = MAX_TOKENS)) as [Heq|Hne].
    + cbn [walk]. rewrite (wi_buf _ _ _ _ _ _ Hinv). cbn [app].
      rewrite rd_middle, (printable_code c Hc), Heq. done.
    + destruct (walk_step _ _ _ _ _ _ _ (length rest) Hinv Hc)
        as (w' & x & done' & cur' & -> & Hinv'); [lia|].
      apply (IH _ _ _ _ Hinv').
      * rewrite length_app. simpl. lia.
      * rewrite length_app. simpl.
        by replace (S MAX_TOKENS - (length seen + 1))
          with (MAX_TOKENS - length seen) by lia.
Qed.

Lemma walk_bad line c tail : forall good seen w done cur,
  walk_inv line seen w done cur (good ++ c :: tail) ->
  Forall (fun c => printable c = true) good ->
  printable c = false ->
  length seen + length good <= MAX_TOKENS ->
  walk (length (good ++ c :: tail)) (length seen) line w
  = inl (BadCharacter c (length seen + length good) (cstr line)).
Proof.
  induction good as [|g good IH]; intros seen w done cur Hinv Hp Hc Hlen.
  - cbn [app length walk]. rewrite (wi_buf _ _ _ _ _ _ Hinv). cbn [app].
    rewrite rd_middle, (unprintable_code c Hc), Nat.add_0_r. done.
  - apply Forall_cons in Hp as [Hg Hp]. cbn [app length] in *.
    destruct (walk_step _ _ _ _ _ _ _ (length (good ++ c :: tail)) Hinv Hg)
      as (w' & x & done' & cur' & -> & Hinv'); [lia|].
    rewrite (IH _ _ _ _ Hinv' Hp Hc); rewrite length_app; simpl; [|lia].
    do 2 f_equal. lia.
Qed.

Lemma walk_inv_init line :
  walk_inv line []
    {| buf := take (length line) line ++ [NUL]; start := (-1)%Z;
       num_toks := 0; tokens := replicate MAX_TOKENS 0 |}
    [] [] line.
Proof.
  constructor; cbn [buf start num_toks tokens].
  - by rewrite take_ge.
  - done.
  - constructor.
  - apply length_replicate.
  - simpl. lia.
  - simpl. lia.
  - by exists [].
  - done.
  - constructor.
Qed.

Lemma token_at_read seen s t x :
  token_at seen s t -> cstr (drop s (seen ++ x)) = t.
Proof.
  intros (a & b & -> & <- & Ht).
  rewrite <- app_assoc, drop_app_length, <- app_assoc. cbn [app].
  by apply cstr_app_nul.
Qed.

Lemma scan_all w toks r :
  Forall2 (fun s t => cstr (drop s (buf w)) = t)
    (take (num_toks w) (tokens w)) toks ->
  num_toks w <= length (tokens w) ->
  scan (num_toks w) 0 w r = judge toks r.
Proof.
  intros H Hk.
  rewrite <- (length_take_le (tokens w) (num_toks w)) at 1 by done.
  apply scan_judge; [done|]. by rewrite length_take_le.
Qed.

(** On a line of at most [MAX_TOKENS] printable bytes the validator judges
    the whitespace-delimited tokens of the line, left to right. *)
Lemma check_body_printable l :
  Forall (fun c => printable c = true) l ->
  length l <= MAX_TOKENS ->
  check_body l = judge (tokenize l) (EFI_SUCCESS, None).
Proof.
  intros Hp Hlen. unfold check_body, tokenizer.
  destruct (walk_printable l l [] _ [] [] (walk_inv_init l) Hp)
    as (w & seen & done & cur & E & Hinv); [simpl; lia|].
  cbn [length] in E. rewrite E.
  destruct Hinv as [Hbuf Hspec Hdone Hsize Hseen Hroom [seen0 Hcur] Hstart Hline].
  assert (num_toks w < length (tokens w)) as Hk.
  { rewrite Hsize. unfold MAX_TOKENS in *. lia. }
  destruct cur as [|x cur0].
  - rewrite Hstart. cbn [Z.leb Z.compare]. rewrite Hspec, app_nil_r.
    apply scan_all; [|lia]. rewrite Hbuf.
    eapply Forall2_impl; [exact Hdone|]. intros s t. apply token_at_read.
  - rewrite Hstart.
    destruct (Z.leb_spec 0 (Z.of_nat (length seen - length (x :: cur0))));
      [|lia].
    rewrite Hspec. cbn [split_tokens].
    apply scan_all; cbn [push_token buf num_toks tokens];
      [|rewrite length_insert; lia].
    rewrite take_push by done. apply Forall2_app.
    + rewrite Hbuf.
      eapply Forall2_impl; [exact Hdone|]. intros s t. apply token_at_read.
    + constructor; [|constructor].
      rewrite Hstart, Nat2Z.id, Hbuf, Hcur, length_app, length_rev.
      replace (length seen0 + length (x :: cur0) - length (x :: cur0))
        with (length seen0) by lia.
      rewrite <- app_assoc, drop_app_length. cbn [app].
      apply cstr_end. by apply Forall_rev.
Qed.

(** A line whose first [MAX_TOKENS + 1] bytes are printable is refused for
    its length in bytes, whatever its tokens are. *)
Lemma check_body_too_many l :
  MAX_TOKENS < length l ->
  Forall (fun c => printable c = true) (take (S MAX_TOKENS) l) ->
  check_body l = (EFI_SECURITY_VIOLATION, Some TooManyTokens).
Proof.
  intros Hlen Hp. unfold check_body, tokenizer.
  pose proof (walk_too_many l l [] _ [] [] (walk_inv_init l)) as E.
  cbn [length] in E. rewrite Nat.sub_0_r in E. by rewrite E.
Qed.

Lemma check_body_bad good c tail :
  Forall (fun c => printable c = true) good ->
  printable c = false ->
  length good <= MAX_TOKENS ->
  check_body (good ++ c :: tail)
  = (EFI_SECURITY_VIOLATION,
     Some (BadCharacter c (length good) (cstr (good ++ c :: tail)))).
Proof.
  intros Hp Hc Hlen. unfold check_body, tokenizer.
  pose proof (walk_bad _ c tail good [] _ [] [] (walk_inv_init _) Hp Hc) as E.
  cbn [length] in E. by rewrite E.
Qed.

(** ** Which lines the tokenizer accepts *)

(** A list satisfies [printable] throughout or has a first byte that does
    not. *)
Lemma first_unprintable l :
  Forall (fun c => printable c = true) l
  \/ exists good c tail,
       l = good ++ c :: tail
       /\ Forall (fun c => printable c = true) good /\ printable c = false.
Proof.
  induction l as [|x l IH]; [by left|].
  destruct (printable x) eqn:Hx.
  - destruct IH as [IH|(good & c & tail & -> & Hg & Hc)].
    + left. by constructor.
    + right. exists (x :: good), c, tail. repeat split; [|done]. by constructor.
  - right. by exists [], x, l.
Qed.

(** The three ways the first loop ends. *)
Lemma line_cases l :
  (Forall (fun c => printable c = true) l /\ length l <= MAX_TOKENS)
  \/ (MAX_TOKENS < length l
      /\ Forall (fun c => printable c = true) (take (S MAX_TOKENS) l))
  \/ (exists good c tail,
        l = good ++ c :: tail
        /\ Forall (fun c => printable c = true) good
        /\ printable c = false /\ length good <= MAX_TOKENS).
Proof.
  destruct (first_unprintable (take (S MAX_TOKENS) l))
    as [Hp|(good & c & tail & E & Hg & Hc)].
  - destruct (decide (length l <= MAX_TOKENS)) as [Hle|Hgt].
    + left. split; [|done]. by rewrite take_ge in Hp by lia.
    + right. left. split; [lia|done].
  - right. right. exists good, c, (tail ++ drop (S MAX_TOKENS) l).
    repeat split; [|done|done|].
    + rewrite <- (take_drop (S MAX_TOKENS) l) at 1. rewrite E.
      by rewrite <- app_assoc.
    + assert (length (take (S MAX_TOKENS) l) <= S MAX_TOKENS) as H
        by (rewrite length_take; lia).
      rewrite E, length_app in H. simpl in H. lia.
Qed.

Lemma tokenizer_accepts l :
  (exists w, tokenizer l = inr w)
  <-> Forall (fun c => printable c = true) l /\ length l <= MAX_TOKENS.
Proof.
  split.
  - intros [w Hw].
    destruct (line_cases l) as [H|[[Hlen Hp]|(good & c & tail & -> & Hg & Hc & Hlen)]];
      [done|exfalso..].
    + unfold tokenizer in Hw.
      pose proof (walk_too_many l l [] _ [] [] (walk_inv_init l)) as E'.
      cbn [length] in E'. rewrite Nat.sub_0_r in E'.
      by rewrite E' in Hw.
    + unfold tokenizer in Hw.
      pose proof (walk_bad _ c tail good [] _ [] [] (walk_inv_init _) Hg Hc) as E.
      cbn [length] in E. by rewrite E in Hw.
  - intros [Hp Hlen]. unfold tokenizer.
    destruct (walk_printable l l [] _ [] [] (walk_inv_init l) Hp)
      as (w & seen & done & cur & E & Hinv); [simpl; lia|].
    cbn [length] in E. rewrite E. by eexists.
Qed.

Lemma scan_shape n : forall i w r,
  (r = (EFI_SUCCESS, None) \/ exists d, r = (EFI_SECURITY_VIOLATION, Some d)) ->
  scan n i w r = (EFI_SUCCESS, None)
  \/ exists d, scan n i w r = (EFI_SECURITY_VIOLATION, Some d).
Proof.
  induction n as [|n IH]; intros i w r Hr; simpl; [done|].
  apply IH.
  destruct (negb (is_allowed (drop (default 0 (tokens w !! i)) (buf w))));
    [right; eauto|done].
Qed.

(** The validator returns success with no message, or a security violation
    with one. *)
Lemma check_body_shape l :
  check_body l = (EFI_SUCCESS, None)
  \/ exists d, check_body l = (EFI_SECURITY_VIOLATION, Some d).
Proof.
  unfold check_body. destruct (tokenizer l) as [d|w]; [right; eauto|].
  apply scan_shape. by left.
Qed.

Lemma check_body_success l :
  fst (check_body l) = EFI_SUCCESS -> check_body l = (EFI_SUCCESS, None).
Proof. by destruct (check_body_shape l) as [->|[d ->]]. Qed.

(** ** Tokens *)

Lemma split_tokens_count l : forall cur,
  2 * length (split_tokens cur l)
  <= length l + 1 + match cur with [] => 0 | _ => 1 end.
Proof.
  induction l as [|c l IH]; intros cur; simpl.
  - destruct cur; simpl; lia.
  - destruct (Ascii.eqb c SPACE).
    + rewrite length_app. specialize (IH []). simpl in IH.
      destruct cur; simpl; lia.
    + specialize (IH (c :: cur)). simpl in IH. destruct cur; lia.
Qed.

(** Every token but the last takes its bytes and a space. *)
Lemma tokenize_count l : 2 * length (tokenize l) <= length l + 1.
Proof. pose proof (split_tokens_count l []). simpl in *. unfold tokenize. lia. Qed.

Lemma split_tokens_space a b : forall cur,
  split_tokens cur (a ++ SPACE :: b) = split_tokens cur a ++ tokenize b.
Proof.
  induction a as [|c a IH]; intros cur; simpl; [done|].
  destruct (Ascii.eqb c SPACE); [|apply IH].
  by rewrite IH, app_assoc.
Qed.

Lemma tokenize_space a b : tokenize (a ++ SPACE :: b) = tokenize a ++ tokenize b.
Proof. apply split_tokens_space. Qed.

Lemma split_tokens_word a : forall cur,
  Forall (fun c => c <> SPACE) a ->
  split_tokens cur (a ++ []) = match rev cur ++ a with [] => [] | t => [t] end.
Proof.
  induction a as [|c a IH]; intros cur Ha; simpl.
  - rewrite app_nil_r. destruct cur as [|x cur]; [done|].
    simpl. by destruct (rev cur ++ [x]) eqn:E; [destruct (rev cur)|].
  - apply Forall_cons in Ha as [Hc Ha]. apply Ascii.eqb_neq in Hc. rewrite Hc.
    rewrite IH by done. simpl. by rewrite <- app_assoc.
Qed.

(** A marker that is a whole token of the line is one of its tokens,
    between the tokens before and the tokens after. *)
Lemma tokenize_standalone t pre post :
  t <> [] -> Forall (fun c => c <> SPACE) t ->
  standalone pre post ->
  tokenize (pre ++ t ++ post) = tokenize pre ++ [t] ++ tokenize post.
Proof.
  intros Hne Ht [Hpre Hpost].
  assert (tokenize t = [t]) as Hword.
  { pose proof (split_tokens_word t [] Ht) as E. rewrite app_nil_r in E.
    unfold tokenize. rewrite E. simpl. by destruct t. }
  assert (tokenize (t ++ post) = [t] ++ tokenize post) as Hmid.
  { destruct Hpost as [->|[post' ->]].
    - by rewrite app_nil_r, Hword.
    - by rewrite tokenize_space, Hword. }
  destruct Hpre as [->|[pre' ->]]; [done|].
  rewrite <- app_assoc. cbn [app].
  rewrite tokenize_space, Hmid, (tokenize_space pre' []).
  change (tokenize []) with (@nil (list CHAR8)). by rewrite app_nil_r.
Qed.

(** ** The marker splicer *)

Lemma cstr_marker : cstr marker = marker.
Proof. reflexivity. Qed.

Lemma strlena_marker : strlena marker = length marker.
Proof. reflexivity. Qed.

Lemma cstr_namespace : cstr namespace = namespace.
Proof. reflexivity. Qed.

Lemma marker_not_empty : 0 < length marker.
Proof. unfold marker. simpl. lia. Qed.

Lemma splice_no_marker secure builtin runtime :
  builtin <> [] -> ~ occurs marker builtin ->
  splice secure builtin runtime =
  if secure then
    if negb (length runtime =? 0) then inl RuntimeWithoutMarker
    else inr ([], 0, [], 0)
  else inr (builtin ++ [SPACE], length builtin + 1, [], 0).
Proof.
  intros Hne Hno. unfold splice.
  destruct (Nat.eqb_spec (length builtin) 0) as [E|_].
  { by destruct builtin. }
  rewrite strstra_absent by (by rewrite cstr_marker).
  by rewrite take_ge.
Qed.

Lemma boundary_before pre x :
  (length pre =? 0) || Ascii.eqb (rd (pre ++ x) (length pre - 1)) SPACE = true
  <-> pre = [] \/ exists pre', pre = pre' ++ [SPACE].
Proof.
  destruct pre as [|c pre _] using rev_ind; [by split; [left|]|].
  rewrite length_app. cbn [length].
  replace (length pre + 1 - 1) with (length pre) by lia.
  rewrite <- app_assoc. cbn [app]. rewrite rd_middle.
  destruct (Nat.eqb_spec (length pre + 1) 0) as [?|_]; [lia|]. cbn [orb].
  rewrite Ascii.eqb_eq. split.
  - intros ->. right. by exists pre.
  - intros [H|[pre' H]]; [by destruct pre|].
    by apply app_inj_tail in H as [_ ->].
Qed.

Lemma boundary_after pre t post :
  (length post =? 0)
  || Ascii.eqb (rd (pre ++ t ++ post) (length pre + length t)) SPACE = true
  <-> post = [] \/ exists post', post = SPACE :: post'.
Proof.
  destruct post as [|c post]; [by split; [left|]|].
  rewrite app_assoc, <- length_app, rd_middle. cbn [length Nat.eqb orb].
  rewrite Ascii.eqb_eq. split.
  - intros ->. right. by exists post.
  - by intros [H|[post' [= -> _]]].
Qed.

(** What the splicer does with a builtin line in which the marker occurs
    once. *)
Lemma splice_found secure pre post runtime :
  c_line (pre ++ marker ++ post) ->
  only_at marker pre post ->
  splice secure (pre ++ marker ++ post) runtime =
  if negb (((length pre =? 0)
            || Ascii.eqb (rd (pre ++ marker ++ post) (length pre - 1)) SPACE)
           && ((length post =? 0)
               || Ascii.eqb (rd (pre ++ marker ++ post)
                               (length pre + length marker)) SPACE))
  then inl (MarkerNotFullToken marker)
  else inr (pre, length pre, post, length post).
Proof.
  intros Hline Honce. unfold splice.
  pose proof marker_not_empty as Hm.
  destruct (Nat.eqb_spec (length (pre ++ marker ++ post)) 0) as [E|_].
  { rewrite !length_app in E. lia. }
  rewrite strstra_c_line, cstr_marker by done.
  destruct (find_sub marker (pre ++ marker ++ post)) as [p|] eqn:Hp.
  2:{ exfalso. apply (find_sub_None _ _ Hp). by exists pre, post. }
  apply find_sub_Some in Hp as (a & b & E & <-).
  apply Honce in E as ->.
  rewrite strlena_marker.
  assert (drop (length pre + length marker) (pre ++ marker ++ post) = post) as ->.
  { by rewrite app_assoc, <- length_app, drop_app_length. }
  rewrite strstra_absent.
  2:{ rewrite cstr_marker. intros (a' & b' & ->).
      specialize (Honce (pre ++ marker ++ a') b').
      rewrite <- !app_assoc in Honce. specialize (Honce eq_refl).
      apply (f_equal length) in Honce. rewrite !length_app in Honce. lia. }
  cbn [not_null].
  replace (length (pre ++ marker ++ post) - length marker - length pre)
    with (length post) by (rewrite !length_app; lia).
  by rewrite take_app_length, take_ge.
Qed.

Lemma splice_standalone secure pre post runtime :
  c_line (pre ++ marker ++ post) ->
  only_at marker pre post ->
  standalone pre post ->
  splice secure (pre ++ marker ++ post) runtime
  = inr (pre, length pre, post, length post).
Proof.
  intros Hline Honce [Hpre Hpost]. rewrite splice_found by done.
  apply (boundary_before pre (marker ++ post)) in Hpre.
  apply (boundary_after pre marker post) in Hpost.
  by rewrite Hpre, Hpost.
Qed.

Lemma splice_not_standalone secure pre post runtime :
  c_line (pre ++ marker ++ post) ->
  only_at marker pre post ->
  ~ standalone pre post ->
  splice secure (pre ++ marker ++ post) runtime
  = inl (MarkerNotFullToken marker).
Proof.
  intros Hline Honce Hno. rewrite splice_found by done.
  destruct (_ && _) eqn:E; [|done].
  exfalso. apply Hno. apply andb_true_iff in E as [E1 E2].
  split; [by eapply boundary_before|by eapply boundary_after].
Qed.

(** The lengths the splicer returns are the lengths of the parts: the
    subtraction that gives [part2_len] does not wrap. *)
Lemma splice_lengths secure builtin runtime part1 l1 part2 l2 :
  splice secure builtin runtime = inr (part1, l1, part2, l2) ->
  l1 = length part1 /\ l2 = length part2.
Proof.
  unfold splice.
  destruct (length builtin =? 0); [by intros [= <- <- <- <-]|].
  destruct (strstra builtin marker) as [p|] eqn:Hp.
  - apply strstra_bound in Hp.
    destruct (not_null _); [done|]. destruct (negb _); [done|].
    intros [= <- <- <- <-].
    rewrite !length_take, length_drop. lia.
  - destruct secure.
    + destruct (negb _); [done|]. by intros [= <- <- <- <-].
    + intros [= <- <- <- <-]. rewrite length_app, length_take. simpl. lia.
Qed.

(** A computable test for [only_at]: the first occurrence is the one after
    [pre] and there is none further on. *)
Lemma only_at_intro t pre post :
  find_sub t (pre ++ t ++ post) = Some (length pre) ->
  find_sub t (drop (S (length pre)) (pre ++ t ++ post)) = None ->
  only_at t pre post.
Proof.
  intros Hfirst Hnext a b E.
  pose proof (find_sub_first _ _ _ a b Hfirst E) as Hle.
  destruct (decide (length a = length pre)) as [Heq|Hne].
  - apply (f_equal (take (length a))) in E.
    rewrite take_app_length in E. rewrite Heq, take_app_length in E. done.
  - exfalso. apply (find_sub_None _ _ Hnext).
    exists (drop (S (length pre)) a), b. rewrite E.
    rewrite drop_app_le by lia. done.
Qed.

Lemma splice_c_line secure builtin runtime part1 l1 part2 l2 :
  c_line builtin ->
  splice secure builtin runtime = inr (part1, l1, part2, l2) ->
  c_line part1 /\ c_line part2.
Proof.
  intros Hb. unfold splice.
  destruct (length builtin =? 0).
  { intros [= <- <- <- <-]. split; constructor. }
  destruct (strstra builtin marker) as [p|].
  - destruct (not_null _); [done|]. destruct (negb _); [done|].
    intros [= <- <- <- <-]. split.
    + by apply Forall_take.
    + by apply Forall_take, Forall_drop.
  - destruct secure.
    + destruct (negb _); [done|]. intros [= <- <- <- <-]. split; constructor.
    + intros [= <- <- <- <-]. split; [|constructor].
      apply Forall_app. split; [by apply Forall_take|].
      by constructor.
Qed.

(** The message of a validation that does not exceed the byte limit names a
    token. *)
Lemma judge_message toks :
  snd (judge toks (EFI_SUCCESS, None)) <> Some TooManyTokens.
Proof.
  destruct (last_disallowed toks) as [H|(before & t & after & -> & Ht & Hafter)].
  - by rewrite judge_allowed.
  - by rewrite judge_last.
Qed.

(** What the code checks against [MAX_TOKENS] is the length of the line in
    bytes. *)
Lemma too_many_tokens_is_too_many_bytes l :
  Forall (fun c => printable c = true) l ->
  check_body l = (EFI_SECURITY_VIOLATION, Some TooManyTokens)
  <-> MAX_TOKENS < length l.
Proof.
  intros Hp. split.
  - intros E. destruct (decide (length l <= MAX_TOKENS)) as [Hle|Hgt]; [|lia].
    exfalso. rewrite check_body_printable in E by done.
    apply (judge_message (tokenize l)). by rewrite E.
  - intros Hlen. apply check_body_too_many; [done|]. by apply Forall_take.
Qed.

(** A line with more than [MAX_TOKENS] tokens is among the lines refused. *)
Lemma many_tokens_refused l :
  Forall (fun c => printable c = true) l ->
  MAX_TOKENS < length (tokenize l) ->
  check_body l = (EFI_SECURITY_VIOLATION, Some TooManyTokens).
Proof.
  intros Hp Hn. apply too_many_tokens_is_too_many_bytes; [done|].
  pose proof (tokenize_count l). lia.
Qed.

(** * The claims of the specification *)

(** ** C1: merge in Secure mode around the marker *)

(** C1, as stated, at [builtin = "root=atomix STUBBY_RT_CLI1 ro"] and
    [runtime = "console=STUBBY_RT"]: the marker is in the builtin line once,
    as a whole token, the runtime line passes [check_cmdline], and
    [get_cmdline] fails: the runtime line holds the reserved namespace. *)
Lemma C1_counterexample :
  let pre := str "root=atomix " in
  let post := str " ro" in
  let runtime := str "console=STUBBY_RT" in
  only_at marker pre post
  /\ standalone pre post
  /\ run (check_cmdline runtime None) unlimited = (EFI_SUCCESS, None)
  /\ run (get_cmdline true (pre ++ marker ++ post) runtime) unlimited
     = failed EFI_INVALID_PARAMETER (Some (NamespaceInRuntime namespace)).
Proof.
  cbv zeta. split; [|split; [|split]].
  - by apply only_at_intro.
  - split; right; [by exists (str "root=atomix")|by exists (str "ro")].
  - by vm_compute.
  - by vm_compute.
Qed.

(** C1 (amended): in Secure mode, when the builtin line holds the marker
    once, as a whole token, the runtime line passes validation, and the
    reserved namespace occurs neither before the marker, nor after it, nor
    in the runtime line, [get_cmdline] succeeds and returns the bytes before
    the marker, the runtime line and the bytes after the marker, with the
    length of the three, and no message. *)
Theorem C1_secure_merge_around_marker pool pre post runtime :
  plenty pool ->
  c_line (pre ++ marker ++ post) ->
  only_at marker pre post ->
  standalone pre post ->
  fst (check_body runtime) = EFI_SUCCESS ->
  ~ occurs namespace pre ->
  ~ occurs namespace post ->
  ~ occurs namespace runtime ->
  run (get_cmdline true (pre ++ marker ++ post) runtime) pool
  = {| status := EFI_SUCCESS;
       cmdline := Some (pre ++ runtime ++ post);
       cmdline_len := length pre + length runtime + length post;
       errmsg := None |}.
Proof.
  intros Hpool Hline Honce Hstand Hcheck Hpre Hpost Hrun.
  rewrite get_cmdline_served, splice_standalone by done.
  rewrite !strstra_absent by (by rewrite cstr_namespace).
  cbn [not_null orb]. rewrite (check_body_success runtime Hcheck).
  cbn [fst snd EFI_ERROR status_value Z.testbit andb].
  by rewrite !take_ge.
Qed.

Lemma C1_witness :
  plenty unlimited
  /\ c_line (str "root=atomix " ++ marker ++ str " ro")
  /\ only_at marker (str "root=atomix ") (str " ro")
  /\ standalone (str "root=atomix ") (str " ro")
  /\ fst (check_body (str "quiet")) = EFI_SUCCESS
  /\ run (get_cmdline true (str "root=atomix STUBBY_RT_CLI1 ro") (str "quiet"))
       unlimited
     = {| status := EFI_SUCCESS;
          cmdline := Some (str "root=atomix quiet ro");
          cmdline_len := 20;
          errmsg := None |}.
Proof.
  assert (plenty unlimited) as H1 by exact plenty_unlimited.
  assert (c_line (str "root=atomix " ++ marker ++ str " ro")) as H2.
  { repeat (constructor; [discriminate|]). constructor. }
  assert (only_at marker (str "root=atomix ") (str " ro")) as H3.
  { apply only_at_intro; vm_compute; reflexivity. }
  assert (standalone (str "root=atomix ") (str " ro")) as H4.
  { split; right; [exists (str "root=atomix")|exists (str "ro")]; reflexivity. }
  assert (fst (check_body (str "quiet")) = EFI_SUCCESS) as H5.
  { vm_compute. reflexivity. }
  repeat (split; [assumption|]).
  apply (C1_secure_merge_around_marker unlimited (str "root=atomix ") (str " ro")
           (str "quiet") H1 H2 H3 H4 H5).
  - apply find_sub_None. vm_compute. reflexivity.
  - apply find_sub_None. vm_compute. reflexivity.
  - apply find_sub_None. vm_compute. reflexivity.
Defined.

(** ** C2: the token limit *)

(** C2 fails on the code at a line of 129 bytes that is one token: the line
    is printable, has a single token, and is refused with the message of
    the token limit.  Line 72 of kcmdline.c compares the byte index with
    [MAX_TOKENS], where the comment on [MAX_TOKENS] speaks of tokens. *)
Theorem C2_token_limit_counts_bytes :
  let line := replicate 129 "a"%char in
  Forall (fun c => printable c = true) line
  /\ tokenize line = [line]
  /\ length (tokenize line) <= MAX_TOKENS
  /\ run (check_cmdline line None) unlimited
     = (EFI_SECURITY_VIOLATION, Some TooManyTokens).
Proof.
  cbv zeta. split; [|split; [|split]].
  - apply Forall_replicate. reflexivity.
  - vm_compute. reflexivity.
  - vm_compute. lia.
  - vm_compute. reflexivity.
Qed.

(** ** C3: prefix entries of the allow list *)

(** C3, as stated, at the input [root=atomixFOO]: the row [root=atomix] of
    the table has no flag, and the input is refused. *)
Lemma C3_counterexample :
  In (row "root=atomix") allowed
  /\ rd (row "root=atomix") 0 <> CARET
  /\ is_allowed (str "root=atomixFOO") = false.
Proof.
  split; [|split].
  - unfold allowed. simpl. tauto.
  - discriminate.
  - reflexivity.
Qed.

(** C3 (amended): for a row of the table that carries the flag, every
    input that starts with the pattern of the row is allowed, whatever
    follows the pattern. *)
Theorem C3_flagged_row_matches_prefix token rest :
  In token allowed ->
  rd token 0 = CARET ->
  is_allowed (pattern token ++ rest) = true.
Proof.
  intros Hin Hflag. unfold allowed in Hin. simpl in Hin.
  destruct Hin as [<-|[<-|[<-|[<-|[<-|[<-|[<-|[]]]]]]]];
    try discriminate Hflag; reflexivity.
Qed.

Lemma C3_witness :
  In (row "^console=") allowed
  /\ rd (row "^console=") 0 = CARET
  /\ is_allowed (pattern (row "^console=") ++ str "ttyS0,115200") = true.
Proof.
  assert (In (row "^console=") allowed) as H1 by (simpl; tauto).
  assert (rd (row "^console=") 0 = CARET) as H2 by reflexivity.
  repeat (split; [assumption|]).
  exact (C3_flagged_row_matches_prefix (row "^console=") (str "ttyS0,115200") H1 H2).
Defined.

(** ** C4: the rows of the allow list *)

(** C4, as stated, at the first row of the table: the string stored in the
    row starts with the flag, and [is_allowed] refuses it. *)
Lemma C4_counterexample :
  In (row "^console=") allowed /\ is_allowed (row "^console=") = false.
Proof. split; [simpl; tauto|reflexivity]. Qed.

(** C4 (amended): for every row of the table, the pattern of the row (the
    row without its flag) is allowed; the string stored in the row is
    allowed exactly when the row carries no flag. *)
Theorem C4_patterns_are_allowed token :
  In token allowed ->
  is_allowed (pattern token) = true
  /\ (is_allowed token = true <-> rd token 0 <> CARET).
Proof.
  intros Hin. unfold allowed in Hin. simpl in Hin.
  destruct Hin as [<-|[<-|[<-|[<-|[<-|[<-|[<-|[]]]]]]]];
    (split; [reflexivity|]); split; intros H; try done; try discriminate H;
    by exfalso; apply H.
Qed.

Lemma C4_witness :
  In (row "^root=soci:") allowed
  /\ is_allowed (pattern (row "^root=soci:")) = true
  /\ (is_allowed (row "^root=soci:") = true <-> rd (row "^root=soci:") 0 <> CARET).
Proof.
  assert (In (row "^root=soci:") allowed) as H1 by (simpl; tauto).
  split; [assumption|].
  exact (C4_patterns_are_allowed (row "^root=soci:") H1).
Defined.

(** ** C5: the last disallowed token is the one reported *)

(** C5: when the tokenizer accepts the line and some token of it is not
    allowed, [check_cmdline] returns [EFI_SECURITY_VIOLATION] and the message
    names the disallowed token after which every token is allowed: the loop
    goes on past a violation and the last one is kept. *)
Theorem C5_last_disallowed_token_reported pool line :
  plenty pool ->
  (exists w, tokenizer line = inr w) ->
  Exists (fun t => is_allowed t = false) (tokenize line) ->
  exists before t after,
    tokenize line = before ++ t :: after
    /\ is_allowed t = false
    /\ Forall (fun u => is_allowed u = true) after
    /\ run (check_cmdline line None) pool
       = (EFI_SECURITY_VIOLATION, Some (TokenNotAllowed t)).
Proof.
  intros Hpool Htok Hbad.
  apply tokenizer_accepts in Htok as [Hp Hlen].
  rewrite check_cmdline_served, check_body_printable by done.
  destruct (last_disallowed (tokenize line))
    as [Hall|(before & t & after & E & Ht & Hafter)].
  - exfalso. apply Exists_exists in Hbad as (t & Hin & Ht).
    rewrite Forall_forall in Hall. specialize (Hall t Hin). congruence.
  - exists before, t, after. rewrite E at 2. by rewrite judge_last.
Qed.

Lemma C5_witness :
  plenty unlimited
  /\ (exists w, tokenizer (str "quiet evil ro bad verbose") = inr w)
  /\ Exists (fun t => is_allowed t = false)
       (tokenize (str "quiet evil ro bad verbose"))
  /\ exists before t after,
       tokenize (str "quiet evil ro bad verbose") = before ++ t :: after
       /\ is_allowed t = false
       /\ Forall (fun u => is_allowed u = true) after
       /\ run (check_cmdline (str "quiet evil ro bad verbose") None) unlimited
          = (EFI_SECURITY_VIOLATION, Some (TokenNotAllowed t)).
Proof.
  assert (plenty unlimited) as H1 by exact plenty_unlimited.
  assert (exists w, tokenizer (str "quiet evil ro bad verbose") = inr w) as H2.
  { eexists. vm_compute. reflexivity. }
  assert (Exists (fun t => is_allowed t = false)
            (tokenize (str "quiet evil ro bad verbose"))) as H3.
  { apply Exists_exists. exists (str "evil"). split; [|reflexivity].
    apply list_elem_of_In. vm_compute. tauto. }
  repeat (split; [assumption|]).
  exact (C5_last_disallowed_token_reported unlimited
           (str "quiet evil ro bad verbose") H1 H2 H3).
Defined.

Example last_disallowed_token_is_bad :
  run (check_cmdline (str "quiet evil ro bad verbose") None) unlimited
  = (EFI_SECURITY_VIOLATION, Some (TokenNotAllowed (str "bad"))).
Proof. vm_compute. reflexivity. Qed.

(** ** C6: a builtin line without marker *)

Lemma store_inside (blk : Block) i c :
  i < length blk -> store blk i c = Some (<[i := Some c]> blk).
Proof.
  intros H. unfold store. by destruct (Nat.ltb_spec i (length blk)); [|lia].
Qed.


Lemma take_insert_next {A} (l : list A) i x :
  i < length l -> take (S i) (<[i := x]> l) = take i l ++ [x].
Proof.
  intros H. rewrite (take_S_r _ _ x) by (by apply list_lookup_insert_eq).
  by rewrite take_insert_ge.
Qed.

(** A copy that fits in the block writes the bytes copied and nothing
    else. *)
Lemma copy_mem_inside n : forall (blk : Block) i src,
  n <= length src -> i + n <= length blk ->
  copy_mem blk i src n
  = Some (take i blk ++ map Some (take n src) ++ drop (i + n) blk).
Proof.
  induction n as [|n IH]; intros blk i src Hsrc Hblk; cbn [copy_mem].
  - rewrite Nat.add_0_r. simpl. by rewrite take_drop.
  - destruct src as [|c src]; [simpl in Hsrc; lia|].
    change (rd (c :: src) 0) with c. cbn [tail length] in *.
    rewrite store_inside by lia.
    rewrite IH by (rewrite ?length_insert; lia).
    rewrite take_insert_next by lia.
    rewrite drop_insert_lt by lia.
    replace (S i + n) with (i + S n) by lia.
    by rewrite <- app_assoc.
Qed.




(** C6 fails on the code at [get_cmdline] in Insecure mode with the builtin
    line [console=ttyS0] and the runtime line [evilparam], the example of
    the claim.  The line has no marker; in Secure mode the call fails with
    [EFI_INVALID_PARAMETER], as the claim says.  In Insecure mode the block
    of [part1] has 14 bytes (line 141): the copy of the 13 bytes and the
    space at index 13 fit, and the terminator is stored at index 14 (line
    175), outside the block, where the claim has the call return
    [console=ttyS0 evilparam].  The sibling branch of lines 195-196 stores
    its terminator inside the block. *)
Theorem C6_terminator_is_stored_outside_the_block :
  let builtin := str "console=ttyS0" in
  strstra builtin marker = None
  /\ run (get_cmdline true builtin (str "anything")) unlimited
     = failed EFI_INVALID_PARAMETER (Some RuntimeWithoutMarker)
  /\ length (new_block (length builtin + 1)) = 14
  /\ (exists blk,
        copy_mem (new_block (length builtin + 1)) 0 builtin (length builtin)
        = Some blk
        /\ store blk (length builtin) SPACE
           = Some (map Some builtin ++ [Some SPACE])
        /\ store (map Some builtin ++ [Some SPACE]) (length builtin + 1) NUL
           = None)
  /\ part1_block false builtin (str "evilparam") = None.
Proof.
  cbv zeta. split; [|split; [|split; [|split]]].
  - reflexivity.
  - vm_compute. reflexivity.
  - reflexivity.
  - eexists. split; [vm_compute; reflexivity|]. split; reflexivity.
  - vm_compute. reflexivity.
Qed.

(** The messages of the validator. *)
Lemma check_body_messages l d :
  snd (check_body l) = Some d ->
  (exists c i s, d = BadCharacter c i s)
  \/ d = TooManyTokens
  \/ (exists t, d = TokenNotAllowed t).
Proof.
  destruct (line_cases l)
    as [[Hp Hlen]|[[Hlen Hp]|(good & c & tail & -> & Hg & Hc & Hlen)]].
  - rewrite check_body_printable by done.
    destruct (last_disallowed (tokenize l))
      as [H|(before & t & after & -> & Ht & Hafter)].
    + by rewrite judge_allowed.
    + rewrite judge_last by done. intros [= <-]. right. right. by exists t.
  - rewrite check_body_too_many by done. intros [= <-]. by right; left.
  - rewrite check_body_bad by done. intros [= <-]. left. by do 3 eexists.
Qed.

(** ** C7: the marker must be a whole token *)

(** C7: for a builtin line that holds the marker once: unless the marker
    has the start of the line or a space before it and the end of the line
    or a space after it, [get_cmdline] fails with [EFI_INVALID_PARAMETER]
    and the message that the marker is not a full token; when it has both,
    the marker is one of the tokens of the line and the splicer returns the
    bytes before it and the bytes after it. *)
Theorem C7_marker_is_a_whole_token pool secure pre post runtime :
  plenty pool ->
  c_line (pre ++ marker ++ post) ->
  only_at marker pre post ->
  (~ standalone pre post ->
   run (get_cmdline secure (pre ++ marker ++ post) runtime) pool
   = failed EFI_INVALID_PARAMETER (Some (MarkerNotFullToken marker)))
  /\ (standalone pre post ->
      tokenize (pre ++ marker ++ post) = tokenize pre ++ [marker] ++ tokenize post
      /\ splice secure (pre ++ marker ++ post) runtime
         = inr (pre, length pre, post, length post)
      /\ errmsg (run (get_cmdline secure (pre ++ marker ++ post) runtime) pool)
         <> Some (MarkerNotFullToken marker)).
Proof.
  intros Hpool Hline Honce. split.
  - intros Hno. by rewrite get_cmdline_served, splice_not_standalone.
  - intros Hst. split; [|split].
    + apply tokenize_standalone; [discriminate| |done].
      unfold marker. simpl. repeat (constructor; [discriminate|]). constructor.
    + by apply splice_standalone.
    + rewrite get_cmdline_served, splice_standalone by done.
      destruct (_ || _); [discriminate|]. destruct (not_null _); [discriminate|].
      cbv zeta. intros E.
      assert (snd (check_body runtime) = Some (MarkerNotFullToken marker)) as Hm.
      { by destruct (_ && _). }
      by destruct (check_body_messages _ _ Hm) as [(?&?&?&?)|[?|[? ?]]].
Qed.

Lemma C7_witness :
  plenty unlimited
  /\ c_line (str "a" ++ marker ++ str " b")
  /\ only_at marker (str "a") (str " b")
  /\ ~ standalone (str "a") (str " b")
  /\ run (get_cmdline false (str "aSTUBBY_RT_CLI1 b") (str "quiet")) unlimited
     = failed EFI_INVALID_PARAMETER (Some (MarkerNotFullToken marker)).
Proof.
  assert (plenty unlimited) as H1 by exact plenty_unlimited.
  assert (c_line (str "a" ++ marker ++ str " b")) as H2.
  { repeat (constructor; [discriminate|]). constructor. }
  assert (only_at marker (str "a") (str " b")) as H3.
  { apply only_at_intro; vm_compute; reflexivity. }
  assert (~ standalone (str "a") (str " b")) as H4.
  { intros [[H|[pre' H]] _]; [discriminate H|].
    destruct pre' as [|x [|y pre']]; discriminate H. }
  repeat (split; [assumption|]).
  apply (C7_marker_is_a_whole_token unlimited false (str "a") (str " b")
           (str "quiet") H1 H2 H3). exact H4.
Defined.

Example marker_whole_token_splices :
  splice true (str "root=atomix STUBBY_RT_CLI1 ro") (str "quiet")
  = inr (str "root=atomix ", 12, str " ro", 3).
Proof. reflexivity. Qed.

(** ** C8: the reserved namespace *)




Example namespace_in_runtime_both_modes :
  run (get_cmdline true [] (str "contains STUBBY_RT here")) unlimited
  = failed EFI_INVALID_PARAMETER (Some (NamespaceInRuntime namespace))
  /\ run (get_cmdline false [] (str "contains STUBBY_RT here")) unlimited
     = failed EFI_INVALID_PARAMETER (Some (NamespaceInRuntime namespace)).
Proof. split; vm_compute; reflexivity. Qed.

(** ** C9: a violation of the runtime line under the two modes *)



Example violation_is_fatal_in_secure_mode :
  run (get_cmdline_with_print true (str "console=ttyS0 STUBBY_RT_CLI1")
         (str "evilparam")) unlimited
  = {| err := EFI_SECURITY_VIOLATION;
       out_cmdline := None;
       out_cmdline_len := 0;
       console := [PrintStatusMsg EFI_SECURITY_VIOLATION
                     (TokenNotAllowed (str "evilparam"));
                   PrintRejected] |}.
Proof. vm_compute. reflexivity. Qed.

(** ** C10: Secure mode, no marker, no runtime line *)

(** C10: in Secure mode, for a builtin line that is not empty and does not
    hold the marker, and the empty runtime line, [get_cmdline] returns
    [EFI_SUCCESS] and the empty command line, of length 0: nothing of the
    builtin line is in the result. *)
Theorem C10_builtin_is_dropped pool builtin :
  plenty pool ->
  builtin <> [] ->
  ~ occurs marker builtin ->
  run (get_cmdline true builtin []) pool
  = {| status := EFI_SUCCESS; cmdline := Some []; cmdline_len := 0;
       errmsg := None |}.
Proof.
  intros Hpool Hne Hno.
  by rewrite get_cmdline_served, splice_no_marker.
Qed.

Lemma C10_witness :
  plenty unlimited
  /\ str "console=ttyS0" <> []
  /\ ~ occurs marker (str "console=ttyS0")
  /\ run (get_cmdline true (str "console=ttyS0") []) unlimited
     = {| status := EFI_SUCCESS; cmdline := Some []; cmdline_len := 0;
          errmsg := None |}.
Proof.
  assert (plenty unlimited) as H1 by exact plenty_unlimited.
  assert (str "console=ttyS0" <> []) as H2 by discriminate.
  assert (~ occurs marker (str "console=ttyS0")) as H3.
  { apply find_sub_None. vm_compute. reflexivity. }
  repeat (split; [assumption|]).
  exact (C10_builtin_is_dropped unlimited (str "console=ttyS0") H1 H2 H3).
Defined.

(** * Further properties of the code *)

(** ** check_cmdline *)

Lemma check_cmdline_run pool line e :
  run (check_cmdline line e) pool
  = if pool 0 then check_body line else (EFI_OUT_OF_RESOURCES, e).
Proof.
  unfold check_cmdline, run, bind, AllocatePool, ret. by destruct (pool 0).
Qed.

(** When the validation of a line ends in success. *)
Lemma check_body_passes_iff line :
  fst (check_body line) = EFI_SUCCESS
  <-> Forall (fun c => printable c = true) line
      /\ length line <= MAX_TOKENS
      /\ Forall (fun t => is_allowed t = true) (tokenize line).
Proof.
  split.
  - intros Hs.
    destruct (line_cases line)
      as [[Hp Hlen]|[[Hlen Hp]|(good & c & tail & -> & Hg & Hc & Hlen)]].
    + rewrite check_body_printable in Hs by done.
      destruct (last_disallowed (tokenize line))
        as [H|(before & t & after & E & Ht & Hafter)]; [done|].
      rewrite E, judge_last in Hs by done. discriminate.
    + rewrite check_body_too_many in Hs by done. discriminate.
    + rewrite check_body_bad in Hs by done. discriminate.
  - intros (Hp & Hlen & Hall).
    by rewrite check_body_printable, judge_allowed.
Qed.

(** X1: [check_cmdline] returns [EFI_SUCCESS] exactly when its buffer is
    allocated, every byte of the line is printable, the line has at most
    [MAX_TOKENS] bytes, and every whitespace-delimited token of the line is
    allowed; and when it returns [EFI_SUCCESS] the message buffer is
    empty. *)
Theorem X1_validation_passes_iff (pool : Pool) line e :
  (fst (run (check_cmdline line e) pool) = EFI_SUCCESS
   <-> pool 0 = true
       /\ Forall (fun c => printable c = true) line
       /\ length line <= MAX_TOKENS
       /\ Forall (fun t => is_allowed t = true) (tokenize line))
  /\ (fst (run (check_cmdline line e) pool) = EFI_SUCCESS ->
      run (check_cmdline line e) pool = (EFI_SUCCESS, None)).
Proof.
  rewrite check_cmdline_run. destruct (pool 0).
  - split; [|apply check_body_success].
    rewrite check_body_passes_iff. split; [by intros H|by intros [_ H]].
  - split; [|discriminate]. split; [discriminate|]. by intros [? _].
Qed.

Lemma X1_witness :
  fst (run (check_cmdline (str "quiet  ro") None) unlimited) = EFI_SUCCESS
  /\ run (check_cmdline (str "quiet  ro") None) unlimited = (EFI_SUCCESS, None).
Proof.
  assert (fst (run (check_cmdline (str "quiet  ro") None) unlimited)
          = EFI_SUCCESS) as H1.
  { apply (proj1 (X1_validation_passes_iff unlimited (str "quiet  ro") None)).
    split; [reflexivity|]. split; [|split].
    - repeat (constructor; [reflexivity|]). constructor.
    - vm_compute. lia.
    - repeat (constructor; [reflexivity|]). constructor. }
  split; [assumption|].
  exact (proj2 (X1_validation_passes_iff unlimited (str "quiet  ro") None) H1).
Defined.

(** X2: a byte outside 0x20..0x7e that comes after printable bytes only, at
    an index up to [MAX_TOKENS], ends [check_cmdline] with
    [EFI_SECURITY_VIOLATION] and the message citing that byte, its index and
    the line; at index [MAX_TOKENS] this test still comes before the test of
    the limit. *)
Theorem X2_first_bad_character_is_cited (pool : Pool) good c tail e :
  pool 0 = true ->
  Forall (fun c => printable c = true) good ->
  printable c = false ->
  length good <= MAX_TOKENS ->
  run (check_cmdline (good ++ c :: tail) e) pool
  = (EFI_SECURITY_VIOLATION,
     Some (BadCharacter c (length good) (cstr (good ++ c :: tail)))).
Proof.
  intros Hpool Hg Hc Hlen. rewrite check_cmdline_run, Hpool.
  by apply check_body_bad.
Qed.

Lemma X2_witness :
  unlimited 0 = true
  /\ Forall (fun c => printable c = true) (replicate 128 "a"%char)
  /\ printable "127"%char = false
  /\ length (replicate 128 "a"%char) <= MAX_TOKENS
  /\ run (check_cmdline (replicate 128 "a"%char ++ ["127"%char]) None) unlimited
     = (EFI_SECURITY_VIOLATION,
        Some (BadCharacter "127"%char 128
                (replicate 128 "a"%char ++ ["127"%char]))).
Proof.
  assert (unlimited 0 = true) as H1 by reflexivity.
  assert (Forall (fun c => printable c = true) (replicate 128 "a"%char)) as H2.
  { apply Forall_replicate. reflexivity. }
  assert (printable "127"%char = false) as H3 by reflexivity.
  assert (length (replicate 128 "a"%char) <= MAX_TOKENS) as H4.
  { rewrite length_replicate. unfold MAX_TOKENS. lia. }
  repeat (split; [assumption|]).
  exact (X2_first_bad_character_is_cited unlimited (replicate 128 "a"%char)
           "127"%char [] None H1 H2 H3 H4).
Defined.

(** What the first loop leaves when it ends without error. *)
Lemma tokenizer_inv line w :
  tokenizer line = inr w ->
  Forall2 (fun s t => cstr (drop s (buf w)) = t)
    (take (num_toks w) (tokens w)) (tokenize line)
  /\ num_toks w <= length (tokens w)
  /\ length (tokens w) = MAX_TOKENS.
Proof.
  intros Hw.
  assert (exists w, tokenizer line = inr w) as Hacc by eauto.
  apply tokenizer_accepts in Hacc as [Hp Hlen].
  unfold tokenizer in Hw.
  destruct (walk_printable line line [] _ [] [] (walk_inv_init line) Hp)
    as (w' & seen & done & cur & E & Hinv); [simpl; lia|].
  cbn [length] in E. rewrite E in Hw. injection Hw as <-.
  destruct Hinv as [Hbuf Hspec Hdone Hsize Hseen Hroom [seen0 Hcur] Hstart Hline].
  assert (num_toks w' < length (tokens w')) as Hk.
  { rewrite Hsize. unfold MAX_TOKENS in *. lia. }
  destruct cur as [|x cur0].
  - rewrite Hstart. cbn [Z.leb Z.compare]. rewrite Hspec, app_nil_r.
    split; [|split; [lia|done]]. rewrite Hbuf.
    eapply Forall2_impl; [exact Hdone|]. intros s t. apply token_at_read.
  - rewrite Hstart.
    destruct (Z.leb_spec 0 (Z.of_nat (length seen - length (x :: cur0))));
      [|lia].
    rewrite Hspec. cbn [split_tokens push_token buf num_toks tokens].
    rewrite length_insert. split; [|split; [lia|done]].
    rewrite take_push by done. apply Forall2_app.
    + rewrite Hbuf.
      eapply Forall2_impl; [exact Hdone|]. intros s t. apply token_at_read.
    + constructor; [|constructor].
      rewrite Hstart, Nat2Z.id, Hbuf, Hcur, length_app, length_rev.
      replace (length seen0 + length (x :: cur0) - length (x :: cur0))
        with (length seen0) by lia.
      rewrite <- app_assoc, drop_app_length. cbn [app].
      apply cstr_end. by apply Forall_rev.
Qed.

Lemma Forall2_read {A B} (f : A -> B) l k :
  Forall2 (fun a b => f a = b) l k -> map f l = k.
Proof. induction 1 as [|a b l k <- _ IH]; simpl; [done|by rewrite IH]. Qed.

(** X3: when the first loop of [check_cmdline] ends without error, the C
    strings at the recorded pointers [tokens[0 .. num_toks)] are, in order,
    the maximal runs of bytes other than the space of the line: no token is
    lost, added or cut. *)
Theorem X3_recorded_tokens_are_the_words line w :
  tokenizer line = inr w ->
  map (fun s => cstr (drop s (buf w))) (take (num_toks w) (tokens w))
  = tokenize line.
Proof.
  intros Hw. destruct (tokenizer_inv line w Hw) as (H & _).
  by apply Forall2_read.
Qed.

Lemma X3_witness :
  exists w,
    tokenizer (str "a b  c") = inr w
    /\ map (fun s => cstr (drop s (buf w))) (take (num_toks w) (tokens w))
       = [str "a"; str "b"; str "c"].
Proof.
  assert (exists w, tokenizer (str "a b  c") = inr w) as [w E].
  { eexists. vm_compute. reflexivity. }
  exists w. split; [exact E|].
  exact (X3_recorded_tokens_are_the_words (str "a b  c") w E).
Defined.

(** X4: when the first loop ends without error it has recorded as many
    pointers as the line has tokens, at most half of the bytes of the line
    rounded up, so at most 64: the array of [MAX_TOKENS] pointers is never
    more than half used and no index written is out of its bounds. *)
Theorem X4_token_array_is_half_used line w :
  tokenizer line = inr w ->
  num_toks w = length (tokenize line)
  /\ 2 * num_toks w <= length line + 1
  /\ 2 * num_toks w <= MAX_TOKENS
  /\ length (tokens w) = MAX_TOKENS.
Proof.
  intros Hw. destruct (tokenizer_inv line w Hw) as (H & Hk & Hsize).
  assert (exists w, tokenizer line = inr w) as Hacc by eauto.
  apply tokenizer_accepts in Hacc as [_ Hlen].
  apply Forall2_length in H. rewrite length_take_le in H by done.
  pose proof (tokenize_count line). unfold MAX_TOKENS in *.
  repeat split; [done|lia|lia|done].
Qed.

Lemma X4_witness :
  exists w,
    tokenizer (str "a b  c") = inr w
    /\ num_toks w = 3 /\ length (tokens w) = MAX_TOKENS.
Proof.
  assert (exists w, tokenizer (str "a b  c") = inr w) as [w E].
  { eexists. vm_compute. reflexivity. }
  exists w. split; [exact E|].
  destruct (X4_token_array_is_half_used (str "a b  c") w E) as (H1 & _ & _ & H4).
  split; assumption.
Defined.

Lemma flush_Forall (P : CHAR8 -> Prop) cur :
  Forall P cur ->
  Forall (fun t => t <> [] /\ Forall P t)
    (match cur with [] => [] | _ => [rev cur] end).
Proof.
  intros H. destruct cur as [|x cur]; constructor; [|constructor].
  split; [|by apply Forall_rev].
  simpl. by destruct (rev cur).
Qed.

Lemma split_tokens_Forall (P : CHAR8 -> Prop) l : forall cur,
  Forall P cur ->
  Forall (fun c => c <> SPACE -> P c) l ->
  Forall (fun t => t <> [] /\ Forall P t) (split_tokens cur l).
Proof.
  induction l as [|c l IH]; intros cur Hcur Hl; simpl.
  - by apply flush_Forall.
  - apply Forall_cons in Hl as [Hc Hl].
    destruct (Ascii.eqb_spec c SPACE) as [->|Hne].
    + apply Forall_app. split; [by apply flush_Forall|]. by apply IH.
    + apply IH; [|done]. constructor; [by apply Hc|done].
Qed.

(** X5: when the first loop of [check_cmdline] ends without error, every
    recorded token is a string that is not empty and whose bytes are
    printable and are not the space: repeated, leading and trailing spaces
    give no token. *)
Theorem X5_recorded_tokens_are_words line w :
  tokenizer line = inr w ->
  Forall (fun t => t <> []
                   /\ Forall (fun c => c <> SPACE /\ printable c = true) t)
    (map (fun s => cstr (drop s (buf w))) (take (num_toks w) (tokens w))).
Proof.
  intros Hw. destruct (tokenizer_inv line w Hw) as (H & _).
  rewrite (Forall2_read _ _ _ H).
  assert (exists w, tokenizer line = inr w) as Hacc by eauto.
  apply tokenizer_accepts in Hacc as [Hp _].
  apply split_tokens_Forall; [constructor|].
  eapply Forall_impl; [exact Hp|]. by intros c Hc Hs.
Qed.

Lemma X5_witness :
  exists w,
    tokenizer (str "  ro  quiet ") = inr w
    /\ Forall (fun t => t <> []
                        /\ Forall (fun c => c <> SPACE /\ printable c = true) t)
         (map (fun s => cstr (drop s (buf w))) (take (num_toks w) (tokens w))).
Proof.
  assert (exists w, tokenizer (str "  ro  quiet ") = inr w) as [w E].
  { eexists. vm_compute. reflexivity. }
  exists w. split; [exact E|].
  exact (X5_recorded_tokens_are_words (str "  ro  quiet ") w E).
Defined.

(** ** is_allowed *)

Lemma code_inj a b : code a = code b -> a = b.
Proof.
  unfold code. intros H.
  by rewrite <- (ascii_nat_embedding a), <- (ascii_nat_embedding b), H.
Qed.

Lemma strncmpa_prefix pat : forall pad input,
  c_line pat ->
  (strncmpa (pat ++ pad) input (length pat) =? 0)%Z = starts_with pat input.
Proof.
  induction pat as [|a pat IH]; intros pad input Hpat; [done|].
  apply Forall_cons in Hpat as [Ha Hpat].
  cbn [length strncmpa app]. change (rd (a :: pat ++ pad) 0) with a.
  apply is_nul_false in Ha as Hn. rewrite Hn. cbn [orb tail].
  destruct input as [|b input].
  - change (rd [] 0) with NUL. change (is_nul a) with (Ascii.eqb a NUL) in Hn.
    rewrite Hn. cbn [negb starts_with].
    apply Z.eqb_neq. intros H. apply Ha, code_inj.
    change (code NUL) with 0 in *. lia.
  - change (rd (b :: input) 0) with b. cbn [starts_with tail].
    destruct (Ascii.eqb_spec a b) as [->|Hab]; cbn [negb andb].
    + by apply IH.
    + apply Z.eqb_neq. intros H. apply Hab, code_inj. lia.
Qed.

Lemma cstr_app_c_line pat rest : c_line pat -> cstr (pat ++ rest) = pat ++ cstr rest.
Proof.
  induction 1 as [|c pat Hc _ IH]; simpl; [done|].
  apply is_nul_false in Hc. by rewrite Hc, IH.
Qed.

Lemma int_of_small n : (Z.of_nat n < 2 ^ 31)%Z -> int_of n = Z.of_nat n.
Proof.
  intros H. unfold int_of. rewrite Z.mod_small by lia.
  destruct (Z.ltb_spec (Z.of_nat n) (2 ^ 31)); [done|lia].
Qed.

(** One turn of the loop of [is_allowed] on a row with the flag. *)
Lemma flagged_row_test pat pad rows input n :
  c_line pat ->
  uintn_of (int_of (strlena (CARET :: pat ++ pad)) - 1) = length pat ->
  is_allowed_loop ((CARET :: pat ++ pad) :: rows) input n = true
  <-> (exists rest, input = pat ++ rest) \/ is_allowed_loop rows input n = true.
Proof.
  intros Hpat Hlen. cbn [is_allowed_loop].
  change (rd (CARET :: pat ++ pad) 0) with CARET.
  change (Ascii.eqb CARET CARET) with true. cbn [drop].
  change (drop 0 (pat ++ pad)) with (pat ++ pad).
  rewrite Hlen, strncmpa_prefix by done. rewrite <- starts_with_spec.
  destruct (starts_with pat input); [by split; [left|]|].
  split; [by right|]. by intros [?|?].
Qed.

(** One turn of the loop of [is_allowed] on a row without the flag. *)
Lemma exact_row_test pat pad rows input :
  c_line pat ->
  Ascii.eqb (rd (pat ++ pad) 0) CARET = false ->
  int_of (strlena (pat ++ pad)) = Z.of_nat (length pat) ->
  uintn_of (Z.of_nat (length pat)) = length pat ->
  (Z.of_nat (strlena input) < 2 ^ 31)%Z ->
  is_allowed_loop ((pat ++ pad) :: rows) input (int_of (strlena input)) = true
  <-> cstr input = pat
      \/ is_allowed_loop rows input (int_of (strlena input)) = true.
Proof.
  intros Hpat Hflag Hlen Hu Hsmall. cbn [is_allowed_loop].
  rewrite Hflag, Hlen, Hu, (int_of_small _ Hsmall), strncmpa_prefix by done.
  destruct (Z.eqb_spec (Z.of_nat (strlena input)) (Z.of_nat (length pat)))
    as [E|E]; cbn [negb].
  - apply Nat2Z.inj in E.
    destruct (starts_with pat input) eqn:Hs.
    + split; [intros _|done]. left.
      apply starts_with_spec in Hs as [rest ->].
      unfold strlena in E. rewrite cstr_app_c_line in E |- * by done.
      rewrite length_app in E. destruct (cstr rest); simpl in E; [|lia].
      by rewrite app_nil_r.
    + split; [by right|]. intros [Hc|?]; [|done]. exfalso.
      destruct (cstr_is_prefix input) as [r Hr]. rewrite Hc in Hr.
      assert (starts_with pat input = true) by (apply starts_with_spec; eauto).
      congruence.
  - split; [by right|]. intros [Hc|?]; [|done]. exfalso. apply E.
    unfold strlena. by rewrite Hc.
Qed.

(** X6: [is_allowed] is a default deny over the table: an input, shorter
    than 2^31 bytes, is allowed exactly when it starts with [console=] or
    with [root=soci:], or when it is one of [root=atomix], [ro], [quiet],
    [verbose], [crashkernel=256M], neither longer nor shorter. *)
Theorem X6_allowed_inputs input :
  (Z.of_nat (strlena input) < 2 ^ 31)%Z ->
  is_allowed input = true
  <-> (exists rest, input = str "console=" ++ rest)
      \/ (exists rest, input = str "root=soci:" ++ rest)
      \/ In (cstr input)
           [str "root=atomix"; str "ro"; str "quiet"; str "verbose";
            str "crashkernel=256M"].
Proof.
  intros Hsmall. unfold is_allowed, allowed.
  change (row "^console=") with (CARET :: str "console=" ++ replicate 23 NUL).
  change (row "^root=soci:") with (CARET :: str "root=soci:" ++ replicate 21 NUL).
  change (row "root=atomix") with (str "root=atomix" ++ replicate 21 NUL).
  change (row "ro") with (str "ro" ++ replicate 30 NUL).
  change (row "quiet") with (str "quiet" ++ replicate 27 NUL).
  change (row "verbose") with (str "verbose" ++ replicate 25 NUL).
  change (row "crashkernel=256M")
    with (str "crashkernel=256M" ++ replicate 16 NUL).
  rewrite !flagged_row_test
    by (try reflexivity; repeat (constructor; [discriminate|]); constructor).
  rewrite !exact_row_test
    by (try reflexivity; try done;
        repeat (constructor; [discriminate|]); constructor).
  cbn [is_allowed_loop In]. intuition congruence.
Qed.

Lemma X6_witness :
  (Z.of_nat (strlena (str "root=atomixFOO")) < 2 ^ 31)%Z
  /\ (is_allowed (str "root=atomixFOO") = true
      <-> (exists rest, str "root=atomixFOO" = str "console=" ++ rest)
          \/ (exists rest, str "root=atomixFOO" = str "root=soci:" ++ rest)
          \/ In (cstr (str "root=atomixFOO"))
               [str "root=atomix"; str "ro"; str "quiet"; str "verbose";
                str "crashkernel=256M"]).
Proof.
  assert (Z.of_nat (strlena (str "root=atomixFOO")) < 2 ^ 31)%Z as H1.
  { vm_compute. reflexivity. }
  split; [assumption|].
  exact (X6_allowed_inputs (str "root=atomixFOO") H1).
Defined.

(** ** get_cmdline with any pool *)

(** [get_cmdline] with the allocator computed away: the request number 3 is
    the buffer of [check_cmdline], the request number 4 the result. *)
Lemma get_cmdline_any pool secure builtin runtime :
  run (get_cmdline secure builtin runtime) pool =
  if negb (pool 0) then failed EFI_OUT_OF_RESOURCES None
  else if negb (pool 1 && pool 2)
  then failed EFI_OUT_OF_RESOURCES (if junk pool then Some Unwritten else None)
  else
    match splice secure builtin runtime with
    | inl d => failed EFI_INVALID_PARAMETER (Some d)
    | inr (part1, part1_len, part2, part2_len) =>
        if not_null (strstra part1 namespace) || not_null (strstra part2 namespace)
        then failed EFI_INVALID_PARAMETER (Some (NamespaceInBuiltin (cstr namespace)))
        else if not_null (strstra runtime namespace)
        then failed EFI_INVALID_PARAMETER (Some (NamespaceInRuntime (cstr namespace)))
        else if negb (pool 3) then failed EFI_OUT_OF_RESOURCES None
        else
          let st := fst (check_body runtime) in
          let errbuf := snd (check_body runtime) in
          if EFI_ERROR st && (negb (status_eqb st EFI_SECURITY_VIOLATION) || secure)
          then failed st errbuf
          else if negb (pool 4) then failed EFI_OUT_OF_RESOURCES errbuf
          else {| status := st;
                  cmdline := Some (take part1_len part1
                                   ++ take (length runtime) runtime
                                   ++ take part2_len part2);
                  cmdline_len := part1_len + length runtime + part2_len;
                  errmsg := errbuf |}
    end.
Proof.
  unfold get_cmdline, out_unwritten, unwritten, check_cmdline, run, bind,
    AllocatePool, ret, next.
  destruct (pool 0); cbn [negb andb fst answers junk]; [|done].
  destruct (pool 1); cbn [negb andb fst answers junk]; [|done].
  destruct (pool 2); cbn [negb andb fst answers junk]; [|done].
  destruct (splice secure builtin runtime) as [d|[[[part1 l1] part2] l2]]; [done|].
  destruct (not_null (strstra part1 namespace) || not_null (strstra part2 namespace));
    [done|].
  destruct (not_null (strstra runtime namespace)); [done|].
  cbn [answers junk fst].
  destruct (pool 3); cbn [negb fst answers junk]; [|reflexivity].
  destruct (check_body runtime) as [st errbuf]. cbn [fst snd].
  destruct (EFI_ERROR st && (negb (status_eqb st EFI_SECURITY_VIOLATION) || secure));
    [done|].
  cbn [answers junk fst]. by destruct (pool 4).
Qed.

Lemma fatal_shape l secure :
  EFI_ERROR (fst (check_body l))
  && (negb (status_eqb (fst (check_body l)) EFI_SECURITY_VIOLATION) || secure)
  = negb (status_eqb (fst (check_body l)) EFI_SUCCESS) && secure.
Proof.
  destruct (check_body_shape l) as [->|[d ->]]; by destruct secure.
Qed.

(** What a returned command line tells: the splicer gave the two parts, the
    three searches of the namespace found nothing, and the result is the
    first part, the runtime line and the second part. *)
Lemma get_cmdline_returns pool secure builtin runtime out :
  cmdline (run (get_cmdline secure builtin runtime) pool) = Some out ->
  exists part1 part2,
    splice secure builtin runtime = inr (part1, length part1, part2, length part2)
    /\ strstra part1 namespace = None
    /\ strstra part2 namespace = None
    /\ strstra runtime namespace = None
    /\ out = part1 ++ runtime ++ part2
    /\ (secure = true -> check_body runtime = (EFI_SUCCESS, None))
    /\ run (get_cmdline secure builtin runtime) pool
       = {| status := fst (check_body runtime);
            cmdline := Some out;
            cmdline_len := length out;
            errmsg := snd (check_body runtime) |}.
Proof.
  rewrite get_cmdline_any.
  destruct (negb (pool 0)); [done|]. destruct (negb (pool 1 && pool 2)); [done|].
  destruct (splice secure builtin runtime) as [d|[[[part1 l1] part2] l2]] eqn:Hs;
    [done|].
  destruct (splice_lengths _ _ _ _ _ _ _ Hs) as [-> ->].
  destruct (strstra part1 namespace) eqn:E1; [done|].
  destruct (strstra part2 namespace) eqn:E2; [done|].
  destruct (strstra runtime namespace) eqn:E3; [done|].
  cbn [not_null orb]. destruct (negb (pool 3)); [done|].
  cbv zeta. rewrite fatal_shape.
  destruct (negb (status_eqb (fst (check_body runtime)) EFI_SUCCESS) && secure)
    eqn:Hf; [done|].
  destruct (negb (pool 4)); [done|].
  rewrite !take_ge by done. cbn [cmdline]. intros [= <-].
  exists part1, part2. repeat split; try done.
  - intros ->. rewrite andb_true_r in Hf.
    destruct (check_body_shape runtime) as [->|[d Hd]]; [done|].
    by rewrite Hd in Hf.
  - by rewrite !length_app, Nat.add_assoc.
Qed.

(** The parts the splicer returns for a builtin line without NUL. *)
Lemma splice_parts secure builtin runtime part1 l1 part2 l2 :
  c_line builtin ->
  splice secure builtin runtime = inr (part1, l1, part2, l2) ->
  (part1 = [] /\ part2 = []
   /\ (builtin = [] \/ (secure = true /\ runtime = [])))
  \/ (secure = false /\ part1 = builtin ++ [SPACE] /\ part2 = [])
  \/ (builtin = part1 ++ marker ++ part2 /\ standalone part1 part2).
Proof.
  intros Hb. unfold splice.
  destruct (Nat.eqb_spec (length builtin) 0) as [E|_].
  { intros [= <- <- <- <-]. left. destruct builtin; [auto|done]. }
  rewrite strstra_c_line, cstr_marker by done.
  destruct (find_sub marker builtin) as [p|] eqn:Hp.
  - apply find_sub_Some in Hp as (a & b & -> & <-).
    rewrite strlena_marker.
    assert (drop (length a + length marker) (a ++ marker ++ b) = b) as ->.
    { by rewrite app_assoc, <- length_app, drop_app_length. }
    destruct (not_null _); [done|].
    replace (length (a ++ marker ++ b) - length marker - length a)
      with (length b) by (rewrite !length_app; lia).
    destruct (_ && _) eqn:Hc; [|done]. cbn [negb].
    rewrite take_app_length, take_ge by done.
    intros [= <- <- <- <-]. right. right. split; [done|].
    apply andb_true_iff in Hc as [H1 H2].
    split; [by eapply boundary_before|by eapply boundary_after].
  - destruct secure.
    + destruct (Nat.eqb_spec (length runtime) 0) as [E|E]; [|done].
      intros [= <- <- <- <-]. left. destruct runtime; [auto|done].
    + intros [= <- <- <- <-]. right. left. by rewrite take_ge.
Qed.

Lemma splice_parts_standalone secure builtin runtime part1 l1 part2 l2 :
  c_line builtin ->
  splice secure builtin runtime = inr (part1, l1, part2, l2) ->
  standalone part1 part2.
Proof.
  intros Hb Hs.
  destruct (splice_parts _ _ _ _ _ _ _ Hb Hs)
    as [(-> & -> & _)|[(_ & -> & ->)|[_ H]]]; [|split|done].
  - by split; left.
  - right. by exists builtin.
  - by left.
Qed.

Lemma occurs_space t a b :
  Forall (fun c => c <> SPACE) t ->
  occurs t (a ++ SPACE :: b) -> occurs t a \/ occurs t b.
Proof.
  intros Ht (x & y & E).
  apply List.app_eq_app in E as [l [[Ha Hr]|[Hx Hr]]].
  - apply List.app_eq_app in Hr as [l' [[Ht' Hr']|[Hl Hr']]].
    + destruct l' as [|c l'].
      * left. exists x, []. rewrite app_nil_r in Ht'. by rewrite Ha, Ht', app_nil_r.
      * exfalso. simpl in Hr'. injection Hr' as <- _.
        rewrite Ht' in Ht. apply Forall_app in Ht as [_ Ht].
        by apply Forall_cons in Ht as [Hc _].
    + left. exists x, l'. by rewrite Ha, Hl, app_assoc.
  - destruct l as [|c l]; simpl in Hr.
    + destruct t as [|c t]; [left; by exists [], a|].
      exfalso. injection Hr as <- _. by apply Forall_cons in Ht as [Hc _].
    + right. injection Hr as _ ->. by exists l, y.
Qed.

Lemma occurs_wider t s a b : occurs t s -> occurs t (a ++ s ++ b).
Proof.
  intros (x & y & ->). exists (a ++ x), (y ++ b). by rewrite <- !app_assoc.
Qed.

(** A string without space that occurs in the merged line occurs in one of
    its three parts. *)
Lemma occurs_merged t part1 r part2 :
  Forall (fun c => c <> SPACE) t ->
  standalone part1 part2 ->
  occurs t (part1 ++ r ++ part2) ->
  occurs t part1 \/ occurs t r \/ occurs t part2.
Proof.
  intros Ht [H1 H2] Hocc.
  assert (occurs t (r ++ part2) -> occurs t r \/ occurs t part2) as Hrest.
  { destruct H2 as [->|[q ->]].
    - rewrite app_nil_r. by left.
    - intros H. apply occurs_space in H as [H|H]; [by left| |done].
      right. apply (occurs_wider t q [SPACE] []) in H.
      by rewrite app_nil_r in H. }
  destruct H1 as [->|[p ->]]; [right; by apply Hrest|].
  rewrite <- app_assoc in Hocc. cbn [app] in Hocc.
  apply occurs_space in Hocc as [H|H]; [|right; by apply Hrest|done].
  left. apply (occurs_wider t p [] [SPACE]) in H. by rewrite app_nil_l in H.
Qed.

Lemma tokenize_merged part1 r part2 :
  standalone part1 part2 ->
  tokenize (part1 ++ r ++ part2) = tokenize part1 ++ tokenize r ++ tokenize part2.
Proof.
  intros [H1 H2].
  assert (tokenize (r ++ part2) = tokenize r ++ tokenize part2) as Hrest.
  { destruct H2 as [->|[q ->]].
    - by rewrite !app_nil_r.
    - by rewrite tokenize_space. }
  destruct H1 as [->|[p ->]]; [done|].
  rewrite <- app_assoc. cbn [app]. rewrite tokenize_space, Hrest.
  rewrite (tokenize_space p []). change (tokenize []) with (@nil (list CHAR8)).
  by rewrite app_nil_r.
Qed.

Lemma namespace_no_space : Forall (fun c => c <> SPACE) namespace.
Proof. repeat (constructor; [discriminate|]). constructor. Qed.

Lemma marker_no_space : Forall (fun c => c <> SPACE) marker.
Proof. repeat (constructor; [discriminate|]). constructor. Qed.

Lemma printable_c_line l : Forall (fun c => printable c = true) l -> c_line l.
Proof.
  intros H. eapply Forall_impl; [exact H|]. intros c. apply printable_not_nul.
Qed.

Lemma strstra_None_absent s t : c_line s -> strstra s t = None -> ~ occurs (cstr t) s.
Proof. intros Hs H. rewrite strstra_c_line in H by done. by apply find_sub_None. Qed.

(** ** The marker splicer: a marker that is there twice *)

(** X7: a builtin line without NUL in which the marker is found twice makes
    [get_cmdline] fail, in both modes and whatever the runtime line is, with
    [EFI_INVALID_PARAMETER] and the message that the marker appears more
    than once. *)
Theorem X7_marker_twice_is_refused pool secure a b c runtime :
  plenty pool ->
  c_line (a ++ marker ++ b ++ marker ++ c) ->
  run (get_cmdline secure (a ++ marker ++ b ++ marker ++ c) runtime) pool
  = failed EFI_INVALID_PARAMETER (Some (MarkerMoreThanOnce marker)).
Proof.
  intros Hpool Hline. rewrite get_cmdline_served by done.
  assert (splice secure (a ++ marker ++ b ++ marker ++ c) runtime
          = inl (MarkerMoreThanOnce marker)) as ->; [|done].
  unfold splice. pose proof marker_not_empty as Hm.
  destruct (Nat.eqb_spec (length (a ++ marker ++ b ++ marker ++ c)) 0) as [E|_].
  { rewrite !length_app in E. lia. }
  rewrite strstra_c_line, cstr_marker by done.
  destruct (find_sub marker (a ++ marker ++ b ++ marker ++ c)) as [p|] eqn:Hp.
  2:{ exfalso. apply (find_sub_None _ _ Hp). by exists a, (b ++ marker ++ c). }
  pose proof (find_sub_first _ _ _ a (b ++ marker ++ c) Hp eq_refl) as Hle.
  rewrite strlena_marker, strstra_c_line, cstr_marker by (by apply Forall_drop).
  rewrite find_sub_occurs; [done|].
  exists (drop (p + length marker) (a ++ marker ++ b)), c.
  replace (a ++ marker ++ b ++ marker ++ c)
    with ((a ++ marker ++ b) ++ marker ++ c) by (by rewrite <- !app_assoc).
  rewrite drop_app_le; [done|]. rewrite !length_app. lia.
Qed.

Lemma X7_witness :
  plenty unlimited
  /\ c_line (str "A " ++ marker ++ str " B " ++ marker ++ str " C")
  /\ run (get_cmdline false (str "A STUBBY_RT_CLI1 B STUBBY_RT_CLI1 C") [])
       unlimited
     = failed EFI_INVALID_PARAMETER (Some (MarkerMoreThanOnce marker)).
Proof.
  assert (plenty unlimited) as H1 by exact plenty_unlimited.
  assert (c_line (str "A " ++ marker ++ str " B " ++ marker ++ str " C")) as H2.
  { repeat (constructor; [discriminate|]). constructor. }
  repeat (split; [assumption|]).
  exact (X7_marker_twice_is_refused unlimited false (str "A ") (str " B ")
           (str " C") [] H1 H2).
Defined.

(** ** get_cmdline: what a returned command line guarantees *)

(** X8: with the empty builtin line, a runtime line that does not hold the
    reserved namespace, and that passes validation when the mode is Secure,
    is returned as it is, with its length and the verdict of the
    validation. *)
Theorem X8_empty_builtin_returns_runtime pool secure runtime :
  plenty pool ->
  ~ occurs namespace runtime ->
  (secure = true -> fst (check_body runtime) = EFI_SUCCESS) ->
  run (get_cmdline secure [] runtime) pool
  = {| status := fst (check_body runtime);
       cmdline := Some runtime;
       cmdline_len := length runtime;
       errmsg := snd (check_body runtime) |}.
Proof.
  intros Hpool Hns Hsec. rewrite get_cmdline_served by done.
  change (splice secure [] runtime) with
    (@inr Diagnostic _ (@nil CHAR8, 0, @nil CHAR8, 0)).
  cbv beta iota. change (strstra [] namespace) with (@None nat).
  rewrite (strstra_absent runtime) by (by rewrite cstr_namespace).
  cbn [not_null orb]. cbv zeta. rewrite fatal_shape.
  assert (negb (status_eqb (fst (check_body runtime)) EFI_SUCCESS) && secure
          = false) as ->.
  { destruct secure; [|by rewrite andb_false_r]. rewrite (Hsec eq_refl). reflexivity. }
  rewrite !take_ge by (simpl; lia). cbn [app].
  rewrite app_nil_r, Nat.add_0_r. reflexivity.
Qed.

Lemma X8_witness :
  plenty unlimited
  /\ ~ occurs namespace (str "quiet  ro")
  /\ run (get_cmdline true [] (str "quiet  ro")) unlimited
     = {| status := EFI_SUCCESS; cmdline := Some (str "quiet  ro");
          cmdline_len := 9; errmsg := None |}.
Proof.
  assert (plenty unlimited) as H1 by exact plenty_unlimited.
  assert (~ occurs namespace (str "quiet  ro")) as H2.
  { apply find_sub_None. vm_compute. reflexivity. }
  repeat (split; [assumption|]).
  apply (X8_empty_builtin_returns_runtime unlimited true (str "quiet  ro") H1 H2).
  intros _. vm_compute. reflexivity.
Defined.

(** X9: whatever the pool does and in both modes, the length that
    [get_cmdline] stores is the length of the command line it stores, and 0
    when it stores none. *)
Theorem X9_length_of_the_result pool secure builtin runtime :
  cmdline_len (run (get_cmdline secure builtin runtime) pool)
  = match cmdline (run (get_cmdline secure builtin runtime) pool) with
    | Some out => length out
    | None => 0
    end.
Proof.
  destruct (cmdline (run (get_cmdline secure builtin runtime) pool))
    as [out|] eqn:E.
  - apply get_cmdline_returns in E as (p1 & p2 & _ & _ & _ & _ & _ & _ & ->).
    done.
  - rewrite get_cmdline_any in E |- *.
    destruct (negb (pool 0)); [done|]. destruct (negb (pool 1 && pool 2)); [done|].
    destruct (splice secure builtin runtime) as [d|[[[p1 l1] p2] l2]]; [done|].
    destruct (_ || _); [done|]. destruct (not_null _); [done|].
    destruct (negb _); [done|]. cbv zeta in *.
    destruct (_ && _); [done|]. by destruct (negb _).
Qed.

(** X10: in Secure mode, whatever the pool does, [get_cmdline] stores a
    command line only with [EFI_SUCCESS] and no message, and only for a
    runtime line of at most [MAX_TOKENS] printable bytes, whose tokens are
    all allowed, and in which the reserved namespace does not occur. *)
Theorem X10_secure_result_is_validated pool builtin runtime out :
  cmdline (run (get_cmdline true builtin runtime) pool) = Some out ->
  status (run (get_cmdline true builtin runtime) pool) = EFI_SUCCESS
  /\ errmsg (run (get_cmdline true builtin runtime) pool) = None
  /\ Forall (fun c => printable c = true) runtime
  /\ length runtime <= MAX_TOKENS
  /\ Forall (fun t => is_allowed t = true) (tokenize runtime)
  /\ ~ occurs namespace runtime.
Proof.
  intros E.
  apply get_cmdline_returns in E
    as (p1 & p2 & _ & _ & _ & Hns & _ & Hcheck & ->).
  specialize (Hcheck eq_refl). rewrite Hcheck. cbn [status errmsg fst snd].
  assert (fst (check_body runtime) = EFI_SUCCESS) as Hs by (by rewrite Hcheck).
  apply check_body_passes_iff in Hs as (Hp & Hlen & Hall).
  repeat split; try done.
  rewrite <- cstr_namespace. apply strstra_None_absent; [|done].
  by apply printable_c_line.
Qed.

Lemma X10_witness :
  cmdline (run (get_cmdline true (str "root=atomix STUBBY_RT_CLI1 ro")
                  (str "quiet")) unlimited)
  = Some (str "root=atomix quiet ro")
  /\ Forall (fun t => is_allowed t = true) (tokenize (str "quiet")).
Proof.
  assert (cmdline (run (get_cmdline true (str "root=atomix STUBBY_RT_CLI1 ro")
                          (str "quiet")) unlimited)
          = Some (str "root=atomix quiet ro")) as H1.
  { vm_compute. reflexivity. }
  split; [assumption|].
  exact (proj1 (proj2 (proj2 (proj2 (proj2
    (X10_secure_result_is_validated unlimited _ _ _ H1)))))).
Defined.

(** X11: whatever the pool does and in both modes, for lines without NUL,
    the reserved namespace does not occur in a command line that
    [get_cmdline] stores: not in a part, and not across two parts
    either. *)
Theorem X11_result_is_free_of_namespace pool secure builtin runtime out :
  c_line builtin ->
  c_line runtime ->
  cmdline (run (get_cmdline secure builtin runtime) pool) = Some out ->
  ~ occurs namespace out.
Proof.
  intros Hb Hr E.
  apply get_cmdline_returns in E
    as (p1 & p2 & Hs & H1 & H2 & H3 & -> & _ & _).
  destruct (splice_c_line _ _ _ _ _ _ _ Hb Hs) as [Hc1 Hc2].
  apply strstra_None_absent in H1, H2, H3; try done.
  rewrite cstr_namespace in *.
  intros Hocc. apply occurs_merged in Hocc as [?|[?|?]]; try done.
  - apply namespace_no_space.
  - exact (splice_parts_standalone _ _ _ _ _ _ _ Hb Hs).
Qed.

Lemma X11_witness :
  c_line (str "console=ttyS0 STUBBY_RT_CLI1")
  /\ c_line (str "evilparam")
  /\ cmdline (run (get_cmdline false (str "console=ttyS0 STUBBY_RT_CLI1") (str "evilparam"))
                unlimited)
     = Some (str "console=ttyS0 evilparam")
  /\ ~ occurs namespace (str "console=ttyS0 evilparam").
Proof.
  assert (c_line (str "console=ttyS0 STUBBY_RT_CLI1")) as H1.
  { repeat (constructor; [discriminate|]). constructor. }
  assert (c_line (str "evilparam")) as H2.
  { repeat (constructor; [discriminate|]). constructor. }
  assert (cmdline (run (get_cmdline false (str "console=ttyS0 STUBBY_RT_CLI1")
                          (str "evilparam")) unlimited)
          = Some (str "console=ttyS0 evilparam")) as H3.
  { vm_compute. reflexivity. }
  repeat (split; [assumption|]).
  exact (X11_result_is_free_of_namespace unlimited false _ _ _ H1 H2 H3).
Defined.

(** X12: whatever the pool does and in both modes, when the builtin line
    holds the marker once, a command line that [get_cmdline] stores is the
    builtin line with the marker replaced by the runtime line, and its
    tokens are the tokens of the builtin line with the marker token replaced
    by the tokens of the runtime line, in order. *)
Theorem X12_runtime_takes_the_place_of_the_marker
    pool secure pre post runtime out :
  c_line (pre ++ marker ++ post) ->
  only_at marker pre post ->
  cmdline (run (get_cmdline secure (pre ++ marker ++ post) runtime) pool)
  = Some out ->
  out = pre ++ runtime ++ post
  /\ tokenize (pre ++ marker ++ post)
     = tokenize pre ++ [marker] ++ tokenize post
  /\ tokenize out = tokenize pre ++ tokenize runtime ++ tokenize post.
Proof.
  intros Hline Honce E.
  apply get_cmdline_returns in E as (p1 & p2 & Hs & _ & _ & _ & -> & _ & _).
  rewrite splice_found in Hs by done.
  destruct (_ && _) eqn:Hc; [|done]. injection Hs as Hp1 _ Hp2 _.
  subst p1 p2.
  assert (standalone pre post) as Hst.
  { apply andb_true_iff in Hc as [H1 H2].
    split; [by eapply boundary_before|by eapply boundary_after]. }
  split; [done|]. split.
  - apply tokenize_standalone; [discriminate|apply marker_no_space|done].
  - by apply tokenize_merged.
Qed.

Lemma X12_witness :
  c_line (str "root=atomix " ++ marker ++ str " ro")
  /\ only_at marker (str "root=atomix ") (str " ro")
  /\ cmdline (run (get_cmdline false (str "root=atomix STUBBY_RT_CLI1 ro")
                     (str "evil  quiet")) unlimited)
     = Some (str "root=atomix evil  quiet ro")
  /\ tokenize (str "root=atomix evil  quiet ro")
     = tokenize (str "root=atomix ") ++ tokenize (str "evil  quiet")
       ++ tokenize (str " ro").
Proof.
  assert (c_line (str "root=atomix " ++ marker ++ str " ro")) as H1.
  { repeat (constructor; [discriminate|]). constructor. }
  assert (only_at marker (str "root=atomix ") (str " ro")) as H2.
  { apply only_at_intro; vm_compute; reflexivity. }
  assert (cmdline (run (get_cmdline false (str "root=atomix STUBBY_RT_CLI1 ro")
                          (str "evil  quiet")) unlimited)
          = Some (str "root=atomix evil  quiet ro")) as H3.
  { vm_compute. reflexivity. }
  repeat (split; [assumption|]).
  exact (proj2 (proj2 (X12_runtime_takes_the_place_of_the_marker unlimited false
                         (str "root=atomix ") (str " ro") (str "evil  quiet")
                         (str "root=atomix evil  quiet ro") H1 H2 H3))).
Defined.

(** X13: in Secure mode, whatever the pool does, every token of a command
    line that [get_cmdline] stores is a token of the builtin line or an
    allowed token: the runtime line brings in nothing else. *)
Theorem X13_secure_result_tokens pool builtin runtime out :
  c_line builtin ->
  cmdline (run (get_cmdline true builtin runtime) pool) = Some out ->
  Forall (fun t => In t (tokenize builtin) \/ is_allowed t = true)
    (tokenize out).
Proof.
  intros Hb E.
  apply get_cmdline_returns in E as (p1 & p2 & Hs & _ & _ & _ & -> & Hcheck & _).
  specialize (Hcheck eq_refl).
  assert (fst (check_body runtime) = EFI_SUCCESS) as Hok by (by rewrite Hcheck).
  apply check_body_passes_iff in Hok as (_ & _ & Hall).
  assert (Forall (fun t => In t (tokenize builtin) \/ is_allowed t = true)
            (tokenize runtime)) as Hrun.
  { eapply Forall_impl; [exact Hall|]. intros t Ht. by right. }
  pose proof (splice_parts_standalone _ _ _ _ _ _ _ Hb Hs) as Hst.
  rewrite tokenize_merged by done.
  destruct (splice_parts _ _ _ _ _ _ _ Hb Hs)
    as [(-> & -> & _)|[(Hf & _)|[-> _]]]; [|discriminate Hf|].
  - change (tokenize []) with (@nil (list CHAR8)). by rewrite app_nil_r.
  - rewrite (tokenize_standalone marker p1 p2) in Hrun |- *
      by (try discriminate; try apply marker_no_space; done).
    rewrite !Forall_app. split; [|split; [done|]].
    + apply Forall_forall. intros t Ht. left. apply list_elem_of_In in Ht.
      apply in_or_app. by left.
    + apply Forall_forall. intros t Ht. left. apply list_elem_of_In in Ht.
      apply in_or_app. right. apply in_or_app. by right.
Qed.

Lemma X13_witness :
  c_line (str "root=atomix STUBBY_RT_CLI1 ro")
  /\ cmdline (run (get_cmdline true (str "root=atomix STUBBY_RT_CLI1 ro")
                     (str "quiet console=tty0")) unlimited)
     = Some (str "root=atomix quiet console=tty0 ro")
  /\ Forall (fun t => In t (tokenize (str "root=atomix STUBBY_RT_CLI1 ro"))
                      \/ is_allowed t = true)
       (tokenize (str "root=atomix quiet console=tty0 ro")).
Proof.
  assert (c_line (str "root=atomix STUBBY_RT_CLI1 ro")) as H1.
  { repeat (constructor; [discriminate|]). constructor. }
  assert (cmdline (run (get_cmdline true (str "root=atomix STUBBY_RT_CLI1 ro")
                          (str "quiet console=tty0")) unlimited)
          = Some (str "root=atomix quiet console=tty0 ro")) as H2.
  { vm_compute. reflexivity. }
  repeat (split; [assumption|]).
  exact (X13_secure_result_tokens unlimited _ _ _ H1 H2).
Defined.

(** ** get_cmdline_with_print and the pool *)

Lemma get_cmdline_with_print_any pool secure builtin runtime :
  run (get_cmdline_with_print secure builtin runtime) pool =
  let m := run (get_cmdline secure builtin runtime) pool in
  let report e log :=
    {| err := e; out_cmdline := cmdline m;
       out_cmdline_len := cmdline_len m; console := log |} in
  let e := status m in
  if negb (EFI_ERROR e) then report e []
  else
    let log :=
      match errmsg m with
      | None => [PrintStatus e]
      | Some msg => [PrintStatusMsg e msg]
      end in
    if status_eqb e EFI_SECURITY_VIOLATION then
      if secure then report e (log ++ [PrintRejected])
      else report EFI_SUCCESS (log ++ [PrintWouldBeRejected])
    else report e log.
Proof.
  unfold run, get_cmdline_with_print, bind, ret.
  destruct (get_cmdline secure builtin runtime pool) as [m p']. cbn [fst].
  destruct (negb (EFI_ERROR (status m))); [done|].
  destruct (status_eqb (status m) EFI_SECURITY_VIOLATION); [|done].
  by destruct secure.
Qed.

(** The ways [get_cmdline] ends: without command line and with an error, a
    security violation only in Secure mode; or with a command line and
    success, or, in Insecure mode only, a security violation. *)
Lemma get_cmdline_outcome pool secure builtin runtime :
  let m := run (get_cmdline secure builtin runtime) pool in
  (cmdline m = None
   /\ (status m = EFI_OUT_OF_RESOURCES \/ status m = EFI_INVALID_PARAMETER
       \/ (status m = EFI_SECURITY_VIOLATION /\ secure = true)))
  \/ ((exists out, cmdline m = Some out)
      /\ (status m = EFI_SUCCESS
          \/ (status m = EFI_SECURITY_VIOLATION /\ secure = false))).
Proof.
  cbv zeta. rewrite get_cmdline_any.
  destruct (negb (pool 0)); [left; auto|].
  destruct (negb (pool 1 && pool 2)); [left; auto|].
  destruct (splice secure builtin runtime) as [d|[[[p1 l1] p2] l2]];
    [left; auto|].
  destruct (_ || _); [left; auto|]. destruct (not_null _); [left; auto|].
  destruct (negb (pool 3)); [left; auto|]. cbv zeta.
  destruct (check_body_shape runtime) as [->|[d ->]]; cbn [fst snd].
  - cbn. destruct (negb (pool 4)); [left; auto|]. right. eauto.
  - destruct secure; cbn; [left; auto|].
    destruct (negb (pool 4)); [left; auto|]. right. eauto.
Qed.

(** X14: whatever the pool does and in both modes,
    [get_cmdline_with_print] returns [EFI_SUCCESS] exactly when it hands a
    command line to its caller; in Insecure mode it never returns
    [EFI_SECURITY_VIOLATION]. *)
Theorem X14_success_iff_command_line pool secure builtin runtime :
  (err (run (get_cmdline_with_print secure builtin runtime) pool) = EFI_SUCCESS
   <-> exists out,
         out_cmdline (run (get_cmdline_with_print secure builtin runtime) pool)
         = Some out)
  /\ (secure = false ->
      err (run (get_cmdline_with_print secure builtin runtime) pool)
      <> EFI_SECURITY_VIOLATION).
Proof.
  rewrite get_cmdline_with_print_any. cbv zeta.
  destruct (get_cmdline_outcome pool secure builtin runtime)
    as [[Hc [Hs|[Hs|[Hs ->]]]]|[[out Hc] [Hs|[Hs ->]]]];
    rewrite Hs, Hc; cbn; (split; [split|]); try done;
    try (by intros [? ?]); try (by eexists).
Qed.

Lemma X14_witness :
  err (run (get_cmdline_with_print false (str "console=ttyS0 STUBBY_RT_CLI1") (str "evilparam"))
         unlimited) = EFI_SUCCESS
  /\ exists out,
       out_cmdline (run (get_cmdline_with_print false (str "console=ttyS0 STUBBY_RT_CLI1")
                           (str "evilparam")) unlimited) = Some out.
Proof.
  assert (err (run (get_cmdline_with_print false (str "console=ttyS0 STUBBY_RT_CLI1")
                      (str "evilparam")) unlimited) = EFI_SUCCESS) as H1.
  { vm_compute. reflexivity. }
  split; [assumption|].
  exact (proj1 (proj1 (X14_success_iff_command_line unlimited false
                         (str "console=ttyS0 STUBBY_RT_CLI1") (str "evilparam"))) H1).
Defined.



Lemma splice_mode builtin runtime :
  c_line builtin ->
  builtin = [] \/ occurs marker builtin ->
  splice false builtin runtime = splice true builtin runtime.
Proof.
  intros Hb [->|Hocc]; [done|]. unfold splice.
  destruct (length builtin =? 0); [done|].
  rewrite strstra_c_line, cstr_marker by done.
  destruct (find_sub marker builtin) eqn:E; [done|].
  exfalso. by apply (find_sub_None _ _ E).
Qed.

(** X16: for a builtin line without NUL that is empty or holds the marker,
    whatever the pool does, when [get_cmdline] stores a command line in
    Secure mode it returns the same status, command line, length and
    message in Insecure mode: the mode changes nothing for what Secure mode
    accepts. *)
Theorem X16_insecure_agrees_with_secure pool builtin runtime out :
  c_line builtin ->
  builtin = [] \/ occurs marker builtin ->
  cmdline (run (get_cmdline true builtin runtime) pool) = Some out ->
  run (get_cmdline false builtin runtime) pool
  = run (get_cmdline true builtin runtime) pool.
Proof.
  intros Hb Hm E.
  apply get_cmdline_returns in E as (p1 & p2 & _ & _ & _ & _ & _ & Hcheck & _).
  specialize (Hcheck eq_refl).
  rewrite !get_cmdline_any, splice_mode by done.
  destruct (negb (pool 0)); [done|]. destruct (negb (pool 1 && pool 2)); [done|].
  destruct (splice true builtin runtime) as [d|[[[q1 l1] q2] l2]]; [done|].
  destruct (_ || _); [done|]. destruct (not_null _); [done|].
  destruct (negb (pool 3)); [done|].
  by rewrite Hcheck.
Qed.

Lemma X16_witness :
  c_line (str "root=atomix STUBBY_RT_CLI1 ro")
  /\ (str "root=atomix STUBBY_RT_CLI1 ro" = []
      \/ occurs marker (str "root=atomix STUBBY_RT_CLI1 ro"))
  /\ cmdline (run (get_cmdline true (str "root=atomix STUBBY_RT_CLI1 ro")
                     (str "quiet")) unlimited)
     = Some (str "root=atomix quiet ro")
  /\ run (get_cmdline false (str "root=atomix STUBBY_RT_CLI1 ro") (str "quiet"))
       unlimited
     = run (get_cmdline true (str "root=atomix STUBBY_RT_CLI1 ro") (str "quiet"))
         unlimited.
Proof.
  assert (c_line (str "root=atomix STUBBY_RT_CLI1 ro")) as H1.
  { repeat (constructor; [discriminate|]). constructor. }
  assert (str "root=atomix STUBBY_RT_CLI1 ro" = []
          \/ occurs marker (str "root=atomix STUBBY_RT_CLI1 ro")) as H2.
  { right. by exists (str "root=atomix "), (str " ro"). }
  assert (cmdline (run (get_cmdline true (str "root=atomix STUBBY_RT_CLI1 ro")
                          (str "quiet")) unlimited)
          = Some (str "root=atomix quiet ro")) as H3.
  { vm_compute. reflexivity. }
  repeat (split; [assumption|]).
  exact (X16_insecure_agrees_with_secure unlimited _ _ _ H1 H2 H3).
Defined.

(** ** check_cmdline on a line made of allowed words *)

Lemma tokenize_word t :
  t <> [] -> Forall (fun c => c <> SPACE) t -> tokenize t = [t].
Proof.
  intros Hne Ht. pose proof (split_tokens_word t [] Ht) as E.
  rewrite app_nil_r in E. unfold tokenize. rewrite E. simpl. by destruct t.
Qed.

Lemma tokenize_join toks :
  Forall (fun t => t <> [] /\ Forall (fun c => c <> SPACE) t) toks ->
  tokenize (join toks) = toks.
Proof.
  induction 1 as [|t toks [Hne Ht] _ IH]; [done|].
  cbn [join]. destruct toks as [|u toks]; [by apply tokenize_word|].
  by rewrite tokenize_space, IH, tokenize_word.
Qed.

Lemma join_printable toks :
  Forall (Forall (fun c => printable c = true)) toks ->
  Forall (fun c => printable c = true) (join toks).
Proof.
  induction 1 as [|t toks Ht _ IH]; [constructor|].
  cbn [join]. destruct toks as [|u toks]; [done|].
  apply Forall_app. split; [done|]. by constructor.
Qed.

(** X17: a line made of words joined by single spaces, each word not empty,
    of printable bytes other than the space, and allowed, passes
    [check_cmdline] when it has at most [MAX_TOKENS] bytes and the buffer is
    allocated: validation accepts any sequence of allowed words. *)
Theorem X17_allowed_words_pass (pool : Pool) toks e :
  pool 0 = true ->
  Forall (fun t => t <> []
                   /\ Forall (fun c => c <> SPACE /\ printable c = true) t
                   /\ is_allowed t = true) toks ->
  length (join toks) <= MAX_TOKENS ->
  run (check_cmdline (join toks) e) pool = (EFI_SUCCESS, None).
Proof.
  intros Hpool Htoks Hlen. rewrite check_cmdline_run, Hpool.
  assert (tokenize (join toks) = toks) as Htok.
  { apply tokenize_join. eapply Forall_impl; [exact Htoks|].
    intros t (Hne & Ht & _). split; [done|].
    eapply Forall_impl; [exact Ht|]. by intros c [? _]. }
  assert (Forall (fun c => printable c = true) (join toks)) as Hp.
  { apply join_printable. eapply Forall_impl; [exact Htoks|].
    intros t (_ & Ht & _). eapply Forall_impl; [exact Ht|]. by intros c [_ ?]. }
  rewrite check_body_printable, Htok by done.
  apply judge_allowed. eapply Forall_impl; [exact Htoks|].
  by intros t (_ & _ & ?).
Qed.

Lemma X17_witness :
  unlimited 0 = true
  /\ length (join [str "quiet"; str "console=ttyS0"; str "ro"]) <= MAX_TOKENS
  /\ run (check_cmdline (str "quiet console=ttyS0 ro") None) unlimited
     = (EFI_SUCCESS, None).
Proof.
  assert (unlimited 0 = true) as H1 by reflexivity.
  assert (length (join [str "quiet"; str "console=ttyS0"; str "ro"])
          <= MAX_TOKENS) as H2.
  { vm_compute. lia. }
  repeat (split; [assumption|]).
  apply (X17_allowed_words_pass unlimited
           [str "quiet"; str "console=ttyS0"; str "ro"] None H1); [|exact H2].
  repeat (constructor;
          [split; [discriminate|split; [|reflexivity]];
           repeat (constructor; [split; [discriminate|reflexivity]|]);
           constructor|]).
  constructor.
Defined.

(** ** get_cmdline: the block of part1 *)


(** X19: on every path on which the splicer returns its parts, the branch
    without marker of the Insecure mode apart, the stores of [get_cmdline]
    into the block of [part1] stay inside its [builtin_len + 1] bytes, and
    the block then holds the [part1_len] bytes of [part1] followed by the
    terminator. *)
Theorem X19_part1_is_stored_inside_the_block
    secure builtin runtime part1 l1 part2 l2 :
  splice secure builtin runtime = inr (part1, l1, part2, l2) ->
  secure = true \/ builtin = [] \/ strstra builtin marker <> None ->
  exists blk,
    part1_block secure builtin runtime = Some blk
    /\ length blk = length builtin + 1
    /\ take l1 blk = map Some part1
    /\ blk !! l1 = Some (Some NUL).
Proof.
  unfold splice, part1_block. intros Hs Hpath.
  assert (length (<[0 := Some NUL]> (new_block (length builtin + 1)))
          = length builtin + 1) as Hlen.
  { unfold new_block. by rewrite length_insert, length_replicate. }
  rewrite store_inside by (unfold new_block; rewrite length_replicate; lia).
  destruct (Nat.eqb_spec (length builtin) 0) as [E|E].
  { injection Hs as <- <- <- <-. eexists. split; [done|]. split; [done|].
    split; [done|]. apply list_lookup_insert_eq.
    unfold new_block. rewrite length_replicate. lia. }
  destruct (strstra builtin marker) as [p|] eqn:Hp.
  - apply strstra_bound in Hp as Hb.
    destruct (not_null _); [done|]. destruct (negb _); [done|].
    injection Hs as <- <- <- <-.
    rewrite copy_mem_inside by lia.
    rewrite store_inside
      by (rewrite !length_app, length_map, !length_take, length_drop; lia).
    eexists. split; [done|]. cbn [take app]. repeat split.
    + rewrite length_insert, !length_app, length_map, !length_take, length_drop.
      lia.
    + rewrite take_insert_ge by lia. rewrite take_0. cbn [app].
      rewrite take_app_length'; [done|].
      rewrite length_map, length_take. lia.
    + apply list_lookup_insert_eq.
      rewrite !length_app, length_map, !length_take, length_drop. lia.
  - destruct secure.
    + destruct (negb _); [done|]. injection Hs as <- <- <- <-.
      eexists. split; [done|]. split; [done|]. split; [done|].
      apply list_lookup_insert_eq.
      unfold new_block. rewrite length_replicate. lia.
    + exfalso. destruct Hpath as [?|[->|?]]; done.
Qed.

Lemma X19_witness :
  splice false (str "quiet STUBBY_RT_CLI1 ro") (str "verbose")
  = inr (str "quiet ", 6, str " ro", 3)
  /\ (false = true \/ str "quiet STUBBY_RT_CLI1 ro" = []
      \/ strstra (str "quiet STUBBY_RT_CLI1 ro") marker <> None)
  /\ exists blk,
       part1_block false (str "quiet STUBBY_RT_CLI1 ro") (str "verbose")
       = Some blk
       /\ length blk = length (str "quiet STUBBY_RT_CLI1 ro") + 1
       /\ take 6 blk = map Some (str "quiet ")
       /\ blk !! 6 = Some (Some NUL).
Proof.
  assert (splice false (str "quiet STUBBY_RT_CLI1 ro") (str "verbose")
          = inr (str "quiet ", 6, str " ro", 3)) as H1.
  { vm_compute. reflexivity. }
  assert (false = true \/ str "quiet STUBBY_RT_CLI1 ro" = []
          \/ strstra (str "quiet STUBBY_RT_CLI1 ro") marker <> None) as H2.
  { right; right. vm_compute. discriminate. }
  repeat (split; [assumption|]).
  exact (X19_part1_is_stored_inside_the_block false
           (str "quiet STUBBY_RT_CLI1 ro") (str "verbose")
           (str "quiet ") 6 (str " ro") 3 H1 H2).
Defined.
